(** * hipr-eth: the EIP-1185 resolution engine of [src/ethereum.js]

    A shallow embedding of the [Ethereum] class (resolver discovery, RRset
    access, the exact / NS+DS / CNAME fallback chain, node derivation) and
    of its [EthereumCache] (a TTL-checked view on a bounded LRU store),
    followed by the properties proved about them.

    JavaScript values are modelled as follows.
    - a JS string is a [string]; [s.length] is [String.length s];
    - a value that may be [null] or [undefined] is an [option]; the test
      [!v] on such a value is [falsy v] ([null], [undefined] and the empty
      string are falsy, every object, hence every Buffer, is truthy);
    - a [Buffer] is a [list byte];
    - a DNS record type (a small integer) is an [N];
    - [Date.now()] is a [Z] (milliseconds);
    - an [async] method is a computation in the monad [M]: it threads the
      engine state and either returns a value or throws (a rejected
      promise).  The state survives a throw, as the mutated cache does.

    The provider plumbing of the class ([init], [resolveEnsAddress],
    [resolveEnsText]) is outside the resolution engine and is left out. *)

From Stdlib Require Import String Ascii List ZArith NArith Bool Lia.
From Stdlib Require Import Strings.Byte DecimalString DecimalN.
Import ListNotations.

Local Open Scope list_scope.
Local Open Scope string_scope.

(** ** JavaScript built-ins used by the source *)

Module JS.

(** [!v] for a value that is [null]/[undefined] or a string. *)
Definition falsy (v : option string) : bool :=
  match v with
  | None => true
  | Some s => String.eqb s EmptyString
  end.

(** [s.split(c)] for a one-character separator: never empty. *)
Fixpoint split (c : ascii) (s : string) : list string :=
  match s with
  | EmptyString => [EmptyString]
  | String a rest =>
      if Ascii.eqb a c then EmptyString :: split c rest
      else match split c rest with
           | [] => [String a EmptyString]
           | h :: t => String a h :: t
           end
  end.

(** [l.join(sep)]. *)
Fixpoint join (sep : string) (l : list string) : string :=
  match l with
  | [] => EmptyString
  | [x] => x
  | x :: rest => x ++ sep ++ join sep rest
  end.

(** [l.slice(-n)]: the last [n] elements (all of them when fewer). *)
Definition slice_last {A} (n : nat) (l : list A) : list A :=
  skipn (List.length l - n) l.

(** [l[i]] on an array of strings; [undefined] out of range. *)
Definition index (l : list string) (i : nat) : option string := nth_error l i.

(** [s.substr(n)]: drops the first [n] characters. *)
Fixpoint substr (n : nat) (s : string) : string :=
  match n, s with
  | O, _ => s
  | S _, EmptyString => EmptyString
  | S m, String _ rest => substr m rest
  end.

(** [s.slice(0, -1)]: drops the last character. *)
Fixpoint drop_last (s : string) : string :=
  match s with
  | EmptyString => EmptyString
  | String _ EmptyString => EmptyString
  | String a rest => String a (drop_last rest)
  end.

(** The last character of a string, if any. *)
Fixpoint last_char (s : string) : option ascii :=
  match s with
  | EmptyString => None
  | String a EmptyString => Some a
  | String _ rest => last_char rest
  end.

(** [n.toString()] for a non-negative integer: decimal digits. *)
Definition toString (n : N) : string :=
  NilEmpty.string_of_uint (N.to_uint n).

(** Value of a hexadecimal digit. *)
Definition hex_digit (a : ascii) : option N :=
  let n := N_of_ascii a in
  if (48 <=? n)%N && (n <=? 57)%N then Some (n - 48)%N
  else if (97 <=? n)%N && (n <=? 102)%N then Some (n - 87)%N
  else if (65 <=? n)%N && (n <=? 70)%N then Some (n - 55)%N
  else None.

(** [Buffer.from(s, 'hex')]: decodes pairs of hexadecimal digits and
    stops at the first pair that is not one (or at a lone last digit). *)
Fixpoint Buffer_from_hex (s : string) : list byte :=
  match s with
  | String a (String b rest) =>
      match hex_digit a, hex_digit b with
      | Some hi, Some lo =>
          byte_of_ascii (ascii_of_N (16 * hi + lo)) :: Buffer_from_hex rest
      | _, _ => []
      end
  | _ => []
  end.

(** [Buffer.concat([a, b])]. *)
Definition Buffer_concat (a b : list byte) : list byte := (a ++ b)%list.

End JS.

(** ** The [bns] package: [util] and [wire.types]

    The package is a dependency and is not part of the source tree; the
    three helpers and the three type codes the source uses are modelled
    here. *)

Module util.

(** Modelled from the spec: [util.isFQDN] of the [bns] package, which tells
    whether a name ends with the root label (its last character is the
    dot). *)
Definition isFQDN (name : string) : bool :=
  match JS.last_char name with
  | Some a => Ascii.eqb a "."
  | None => false
  end.

(** Modelled from the spec: [util.fqdn] of the [bns] package, "the
    fully-qualified form" of a name: the root dot is appended unless it is
    there. *)
Definition fqdn (name : string) : string :=
  if isFQDN name then name else name ++ ".".

(** Modelled from the spec: [util.trimFQDN] of the [bns] package, "strip
    any trailing root label": the root dot is removed when it is there. *)
Definition trimFQDN (name : string) : string :=
  if isFQDN name then JS.drop_last name else name.

End util.

Module wire.
Module types.
(** Modelled from the spec: the standard DNS record type codes of
    [wire.types] in the [bns] package. *)
Definition NS : N := 2.
(** Modelled from the spec: the type code of CNAME. *)
Definition CNAME : N := 5.
(** Modelled from the spec: the type code of DS. *)
Definition DS : N := 43.
End types.
End wire.

(** ** The [blru] package: a bounded store with least-recently-used eviction

    The package is a dependency and is not part of the source tree.
    Entries are kept oldest first: [get] and [set] move the entry they
    touch to the end, and [set] then drops entries from the front while
    there are more than [capacity] (every entry has size 1, no size
    function being given by the source). *)

Module LRU.

Section Store.
Context {V : Type}.

(** Modelled from the spec: the [LRU] class of the [blru] package, "a
    capacity-bounded key to value store with least-recently-used
    eviction"; the entries are listed from the least to the most recently
    used. *)
Record t := mk { capacity : nat; items : list (string * V) }.

(** Modelled from the spec: [new LRU(capacity)]. *)
Definition empty (cap : nat) : t := mk cap [].

(** Modelled from the spec: the entry stored under a key, if any. *)
Fixpoint lookup (key : string) (l : list (string * V)) : option V :=
  match l with
  | [] => None
  | (k, v) :: rest => if String.eqb k key then Some v else lookup key rest
  end.

(** Modelled from the spec: taking the entry of a key out of the list. *)
Definition unlink (key : string) (l : list (string * V)) : list (string * V) :=
  filter (fun kv => negb (String.eqb (fst kv) key)) l.

(** Modelled from the spec: eviction, which drops the least recently
    used entries while the store is over its capacity. *)
Definition compact (c : t) : t :=
  mk (capacity c) (skipn (List.length (items c) - capacity c) (items c)).

(** Modelled from the spec: [get(key)], which returns the value or
    [null] and makes the entry the most recently used. *)
Definition get (key : string) (c : t) : option V * t :=
  match lookup key (items c) with
  | None => (None, c)
  | Some v => (Some v, mk (capacity c) (unlink key (items c) ++ [(key, v)])%list)
  end.

(** Modelled from the spec: [set(key, value)], which stores or replaces
    the value, makes the entry the most recently used and evicts; a store
    of capacity 0 stores nothing. *)
Definition set (key : string) (value : V) (c : t) : t :=
  if Nat.eqb (capacity c) 0 then c
  else match lookup key (items c) with
       | Some _ => compact (mk (capacity c) (unlink key (items c) ++ [(key, value)])%list)
       | None => compact (mk (capacity c) (items c ++ [(key, value)])%list)
       end.

(** Modelled from the spec: [reset()], which "clears all cached
    entries". *)
Definition reset (c : t) : t := mk (capacity c) [].

End Store.

Arguments t : clear implicits.

End LRU.

(** ** Engine state, remote capabilities and the monad of [async] methods *)

(** A resolver handle ([ethers.Contract] with [RESOLVER_ABI]): the source
    only reads its [address] and calls its [dnsRecord]. *)
Record Resolver := mkResolver { address : string }.

(** A registry handle ([ethers.Contract] with [ENS_ABI]). *)
Record Registry := mkRegistry { registry_address : string }.

(** What the shared store holds: [{time, record}] or [{time, resolver}]. *)
Inductive Item :=
| RecordItem (time : Z) (record : string)
| ResolverItem (time : Z) (resolver : Resolver).

Definition item_time (i : Item) : Z :=
  match i with RecordItem t _ => t | ResolverItem t _ => t end.

(** [item.record]: [undefined] on an item without that field. *)
Definition item_record (i : Item) : option string :=
  match i with RecordItem _ r => Some r | ResolverItem _ _ => None end.

(** [item.resolver]: [undefined] on an item without that field. *)
Definition item_resolver (i : Item) : option Resolver :=
  match i with RecordItem _ _ => None | ResolverItem _ r => Some r end.

(** The remote calls the engine issues, as they are logged. *)
Inductive Call :=
| CallRegistryResolver (registry node : string)
| CallDnsRecord (resolver node name : string) (type : N).

(** Result of running a method: a value, or a thrown error. *)
Inductive Outcome (A : Type) :=
| Returned (a : A)
| Thrown (e : string).

Arguments Returned {A} a.
Arguments Thrown {A} e.

(** Everything outside the engine.  The hash and name-encoding functions
    are opaque; the clock gives the value of the n-th [Date.now()]; the
    two contract reads may depend on the calls made before them (the chain
    changes) and may fail. *)
Record World := mkWorld {
  namehash : string -> string;
  keccak256 : list byte -> string;
  packName : string -> list byte;
  clock : nat -> Z;
  registry_resolver : list Call -> string -> string -> Outcome string;
  resolver_dnsRecord :
    list Call -> string -> string -> string -> N -> Outcome (option string)
}.

(** The mutable state: the cache, the number of clock reads so far and the
    log of remote calls, most recent first. *)
Record State := mkState {
  cache : LRU.t Item;
  ticks : nat;
  calls : list Call
}.

Definition M (A : Type) : Type := State -> Outcome A * State.

Definition ret {A} (a : A) : M A := fun s => (Returned a, s).

Definition throw {A} (e : string) : M A := fun s => (Thrown e, s).

Definition bind {A B} (m : M A) (k : A -> M B) : M B :=
  fun s =>
    match m s with
    | (Returned a, s') => k a s'
    | (Thrown e, s') => (Thrown e, s')
    end.

Notation "x <- m ;; k" := (bind m (fun x => k))
  (at level 61, m at next level, right associativity).
Notation "m ;;; k" := (bind m (fun _ => k))
  (at level 61, right associativity).

(** [Date.now()]. *)
Definition Date_now (w : World) : M Z :=
  fun s => (Returned (clock w (ticks s)),
            mkState (cache s) (S (ticks s)) (calls s)).

(** [this.cache.get(key)] and [this.cache.set(key, value)] on the store. *)
Definition cache_get (key : string) : M (option Item) :=
  fun s => let (v, c) := LRU.get key (cache s) in
           (Returned v, mkState c (ticks s) (calls s)).

Definition cache_set (key : string) (value : Item) : M unit :=
  fun s => (Returned tt, mkState (LRU.set key value (cache s)) (ticks s) (calls s)).

Definition cache_reset : M unit :=
  fun s => (Returned tt, mkState (LRU.reset (cache s)) (ticks s) (calls s)).

(** [await registry.resolver(node)]. *)
Definition call_registry_resolver (w : World) (registry : Registry)
  (node : string) : M string :=
  fun s => (registry_resolver w (calls s) (registry_address registry) node,
            mkState (cache s) (ticks s)
              (CallRegistryResolver (registry_address registry) node :: calls s)).

(** [await resolver.dnsRecord(node, name, type)]. *)
Definition call_dnsRecord (w : World) (resolver : Resolver)
  (node name : string) (type : N) : M (option string) :=
  fun s => (resolver_dnsRecord w (calls s) (address resolver) node name type,
            mkState (cache s) (ticks s)
              (CallDnsRecord (address resolver) node name type :: calls s)).

Definition CACHE_TTL : Z := 30 * 60 * 1000.

Module CACHE_TAGS.
Definition DNS : N := 0.
Definition RESOLVER : N := 1.
End CACHE_TAGS.

(** ** [class EthereumCache] *)

Module EthereumCache.

(** [new EthereumCache(size)]. *)
Definition new (size : nat) : LRU.t Item := LRU.empty size.

Definition toDnsKey (name : string) (type : N) (resolverAddress : string)
  : string :=
  let key := JS.toString CACHE_TAGS.DNS ++ ";" in
  let key := key ++ (name ++ ";") in
  let key := key ++ (JS.toString type ++ ";") in
  let key := key ++ resolverAddress in
  key.

Definition toResolverKey (node registryAddress : string) : string :=
  let key := JS.toString CACHE_TAGS.RESOLVER ++ ";" in
  let key := key ++ (node ++ ";") in
  let key := key ++ registryAddress in
  key.

Definition setRecord (w : World) (name : string) (type : N)
  (resolverAddress : string) (record : option string) : M unit :=
  let key := toDnsKey name type resolverAddress in
  let record :=
    match record with
    | Some r => if JS.falsy record then "0x" else r
    | None => "0x"
    end in
  now <- Date_now w ;;
  cache_set key (RecordItem now record).

Definition getRecord (w : World) (name : string) (type : N)
  (resolverAddress : string) : M (option string) :=
  let key := toDnsKey name type resolverAddress in
  item <- cache_get key ;;
  match item with
  | None => ret None
  | Some item =>
      now <- Date_now w ;;
      if (now >? item_time item + CACHE_TTL)%Z then ret None
      else ret (item_record item)
  end.

Definition setResolver (w : World) (node registryAddress : string)
  (resolver : option Resolver) : M unit :=
  match resolver with
  | None => ret tt
  | Some resolver =>
      let key := toResolverKey node registryAddress in
      now <- Date_now w ;;
      cache_set key (ResolverItem now resolver)
  end.

Definition getResolver (w : World) (node registryAddress : string)
  : M (option Resolver) :=
  let key := toResolverKey node registryAddress in
  item <- cache_get key ;;
  match item with
  | None => ret None
  | Some item =>
      now <- Date_now w ;;
      if (now >? item_time item + CACHE_TTL)%Z then ret None
      else ret (item_resolver item)
  end.

Definition reset : M unit := cache_reset.

End EthereumCache.

(** ** [class Ethereum] *)

Module Ethereum.

Definition ENS_ADDRESS : string :=
  "0x00000000000C2E074eC69A0dFb2997BA6C7d2e1e".

Definition ZERO_ADDRESS : string :=
  "0x0000000000000000000000000000000000000000".

(** [new Ethereum(options)]: a cache of 3000 entries, nothing called. *)
Definition initial (ticks0 : nat) : State :=
  mkState (EthereumCache.new 3000) ticks0 [].

Definition getAbstractEnsRegistry (address : string) : Registry :=
  mkRegistry address.

Definition hashDnsName (w : World) (name : string) : string :=
  let DNSName := packName w name in
  keccak256 w DNSName.

Definition toNode (name : string) : string :=
  let node := name in
  let labels := JS.split "." (util.trimFQDN name) in
  let node :=
    if Nat.ltb 1 (List.length labels)
    then JS.join "." (JS.slice_last 2 labels)
    else node in
  node.

Definition getResolverFromRegistry (w : World) (name : string)
  (registry : Registry) : M (option Resolver) :=
  resolverAddr <- call_registry_resolver w registry (namehash w name) ;;
  if String.eqb resolverAddr ZERO_ADDRESS then ret None
  else ret (Some (mkResolver resolverAddr)).

Definition getResolver (w : World) (name registryAddress : string)
  : M (option Resolver) :=
  cache <- EthereumCache.getResolver w name registryAddress ;;
  match cache with
  | Some r => ret (Some r)
  | None =>
      let registry := getAbstractEnsRegistry registryAddress in
      resolver <- getResolverFromRegistry w name registry ;;
      EthereumCache.setResolver w name registryAddress resolver ;;;
      ret resolver
  end.

Definition getEnsResolver (w : World) (name : string) : M (option Resolver) :=
  getResolver w name ENS_ADDRESS.

Definition getRRSet (w : World) (name : string) (type : N) (node : string)
  (resolver : option Resolver) : M (option (list byte)) :=
  match resolver with
  | None => ret None
  | Some resolver =>
      record <- EthereumCache.getRecord w name type (address resolver) ;;
      record <-
        (if JS.falsy record then
           record <- call_dnsRecord w resolver
                       (namehash w (util.trimFQDN node))
                       (hashDnsName w name)
                       type ;;
           EthereumCache.setRecord w name type (address resolver) record ;;;
           ret record
         else ret record) ;;
      match record with
      | None => ret None
      | Some r =>
          if JS.falsy record || String.eqb r "0x" then ret None
          else ret (Some (JS.Buffer_from_hex (JS.substr 2 r)))
      end
  end.

Definition resolveDnsWithResolver (w : World) (name : string) (type : N)
  (node : string) (resolver : option Resolver) : M (option (list byte)) :=
  rrSet <- getRRSet w name type node resolver ;;
  match rrSet with
  | Some rrSet =>
      if N.eqb type wire.types.NS then
        dsSet <- getRRSet w name wire.types.DS node resolver ;;
        match dsSet with
        | Some dsSet => ret (Some (JS.Buffer_concat rrSet dsSet))
        | None => ret (Some rrSet)
        end
      else ret (Some rrSet)
  | None =>
      let sname := util.fqdn node in
      nsSet <- getRRSet w sname wire.types.NS node resolver ;;
      match nsSet with
      | Some nsSet =>
          dsSet <- getRRSet w sname wire.types.DS node resolver ;;
          match dsSet with
          | Some dsSet => ret (Some (JS.Buffer_concat nsSet dsSet))
          | None => ret (Some nsSet)
          end
      | None => getRRSet w name wire.types.CNAME node resolver
      end
  end.

(** [if (!node) node = this.toNode(name)]. *)
Definition node_or_default (name : string) (node : option string) : string :=
  match node with
  | Some n => if JS.falsy node then toNode name else n
  | None => toNode name
  end.

Definition resolveDnsFromEns (w : World) (name : string) (type : N)
  (node : option string) : M (option (list byte)) :=
  let node := node_or_default name node in
  resolver <- getEnsResolver w (util.trimFQDN node) ;;
  resolveDnsWithResolver w name type node resolver.

Definition resolveDnsFromAbstractEns (w : World) (name : string) (type : N)
  (ns : string) (node : option string) : M (option (list byte)) :=
  let node := node_or_default name node in
  let labels := JS.split "." ns in
  if negb (Nat.eqb (List.length labels) 3) then ret None
  else
    if negb (match JS.index labels 1 with
             | Some l => String.eqb l "_eth"
             | None => false
             end) then ret None
    else
      match JS.index labels 0 with
      | None => throw "TypeError: Cannot read properties of undefined"
      | Some addr =>
          if negb (Nat.eqb (String.length addr) 42) then ret None
          else
            resolver <- getResolver w (util.trimFQDN node) addr ;;
            resolveDnsWithResolver w name type node resolver
      end.

Definition resolveDnsFromRegistry (w : World) (name : string) (type : N)
  (registryAddress : string) (node : option string)
  : M (option (list byte)) :=
  let node := node_or_default name node in
  resolver <- getResolver w (util.trimFQDN node) registryAddress ;;
  resolveDnsWithResolver w name type node resolver.

End Ethereum.

(** ** Notions used to state the properties *)

(** Node derivation as the specification words it: strip the trailing
    root label, split into labels, keep the last two labels when more than
    one remains, otherwise the trimmed name. *)
Definition deriveNode (name : string) : string :=
  let trimmed := util.trimFQDN name in
  let labels := JS.split "." trimmed in
  if Nat.ltb 1 (List.length labels)
  then JS.join "." (JS.slice_last 2 labels)
  else trimmed.

(** The text has no key separator [;]. *)
Fixpoint no_separator (s : string) : bool :=
  match s with
  | EmptyString => true
  | String a rest => negb (Ascii.eqb a ";") && no_separator rest
  end.

(** The record text as [setRecord] stores it: the empty sentinel when the
    call returned nothing. *)
Definition stored_record (record : option string) : string :=
  match record with
  | Some r => if JS.falsy record then "0x" else r
  | None => "0x"
  end.

(** The RRset a record text stands for: none for the empty sentinel,
    otherwise the bytes after the two-character prefix. *)
Definition rrset_of_record (record : string) : option (list byte) :=
  if String.eqb record "0x" then None
  else Some (JS.Buffer_from_hex (JS.substr 2 record)).

(** The fallback chain as the specification words it, over a zone that
    gives the RRset of a name and a type, or nothing: the exact match
    first (with DS after NS), then NS (with DS) at the fully-qualified
    node, then the CNAME of the name. *)
Definition chain (zone : string -> N -> option (list byte))
  (name : string) (type : N) (node : string) : option (list byte) :=
  match zone name type with
  | Some exact =>
      if N.eqb type wire.types.NS then
        match zone name wire.types.DS with
        | Some ds => Some (exact ++ ds)%list
        | None => Some exact
        end
      else Some exact
  | None =>
      let sname := util.fqdn node in
      match zone sname wire.types.NS with
      | Some ns =>
          match zone sname wire.types.DS with
          | Some ds => Some (ns ++ ds)%list
          | None => Some ns
          end
      | None => zone name wire.types.CNAME
      end
  end.

(** The resolver [r] answers every [dnsRecord] call for the node with the
    text [text name type], whatever was called before. *)
Definition steady (w : World) (r : Resolver) (node : string)
  (text : string -> N -> option string) : Prop :=
  forall history name type,
    resolver_dnsRecord w history (address r)
      (namehash w (util.trimFQDN node)) (Ethereum.hashDnsName w name) type
    = Returned (text name type).

(** The zone a resolver serves: the RRsets its texts stand for. *)
Definition zone_of (text : string -> N -> option string)
  (name : string) (type : N) : option (list byte) :=
  rrset_of_record (stored_record (text name type)).

(** Every record the cache holds for the resolver is the text the
    resolver answers (an empty cache is coherent). *)
Definition coherent (text : string -> N -> option string) (addr : string)
  (c : LRU.t Item) : Prop :=
  forall name type time record,
    In (EthereumCache.toDnsKey name type addr, RecordItem time record)
       (LRU.items c) ->
    record = stored_record (text name type).

(** The state of [getRRSet] after a cache miss and the remote call it
    causes, in which the answer is stored. *)
Definition after_call (w : World) (name : string) (type : N) (node : string)
  (r : Resolver) (s : State) : State :=
  let s1 := snd (EthereumCache.getRecord w name type (address r) s) in
  mkState (cache s1) (ticks s1)
    (CallDnsRecord (address r) (namehash w (util.trimFQDN node))
       (Ethereum.hashDnsName w name) type :: calls s1).

(** A method only adds to the log of remote calls, and throws only after
    it has issued one. *)
Definition remote_only {A} (m : M A) : Prop :=
  forall s, exists l,
    calls (snd (m s)) = (l ++ calls s)%list /\
    (forall e, fst (m s) = Thrown e -> l <> []).

(** The store keeps each key once. *)
Definition well_formed (c : LRU.t Item) : Prop :=
  NoDup (map fst (LRU.items c)).

(** An item that [EthereumCache.getResolver] does not return when read at
    time [now] or later: stale, or without a resolver. *)
Definition misses_from (now : Z) (i : Item) : Prop :=
  (item_time i + CACHE_TTL < now)%Z \/ item_resolver i = None.

(** Every entry the store holds under [key] is one that
    [EthereumCache.getResolver] does not return from time [now] on. *)
Definition all_miss (key : string) (now : Z) (c : LRU.t Item) : Prop :=
  forall v, In (key, v) (LRU.items c) -> misses_from now v.

(** Runs of the engine during which no resolver is stored under [key]:
    any sequence of cache reads, record writes, resolver writes of an
    absent value or under another key, resets and remote calls. *)
Inductive no_resolver_stored (w : World) (key : string) : State -> State -> Prop :=
| nrs_refl s :
    no_resolver_stored w key s s
| nrs_getRecord s s' name type addr :
    no_resolver_stored w key s s' ->
    no_resolver_stored w key s (snd (EthereumCache.getRecord w name type addr s'))
| nrs_setRecord s s' name type addr record :
    no_resolver_stored w key s s' ->
    no_resolver_stored w key s
      (snd (EthereumCache.setRecord w name type addr record s'))
| nrs_getResolver s s' node registry :
    no_resolver_stored w key s s' ->
    no_resolver_stored w key s (snd (EthereumCache.getResolver w node registry s'))
| nrs_setResolver_absent s s' node registry :
    no_resolver_stored w key s s' ->
    no_resolver_stored w key s
      (snd (EthereumCache.setResolver w node registry None s'))
| nrs_setResolver_other s s' node registry resolver :
    EthereumCache.toResolverKey node registry <> key ->
    no_resolver_stored w key s s' ->
    no_resolver_stored w key s
      (snd (EthereumCache.setResolver w node registry resolver s'))
| nrs_reset s s' :
    no_resolver_stored w key s s' ->
    no_resolver_stored w key s (snd (EthereumCache.reset s'))
| nrs_call s s' c :
    no_resolver_stored w key s s' ->
    no_resolver_stored w key s (mkState (cache s') (ticks s') (c :: calls s')).

(** A clock that never runs backwards. *)
Definition monotone_clock (w : World) : Prop :=
  forall n m, n <= m -> (clock w n <= clock w m)%Z.

(** ** A small world for the worked scenarios

    Hashes are tagged copies of their input; the clock advances by a
    quarter of an hour at each reading; the root registry knows the
    resolvers of [example.eth] and [plain.eth] and answers the zero
    address for every other node.  The zone [example.eth] is delegated at
    its apex (NS and DS) and has an A record for [www]; the zone
    [plain.eth] has an A record for [www] and a CNAME for [alias]. *)

Module Example.

Definition resolver_a : string := "0x4976fb03C32e5B8cfe2b6cCB31c09Ba78EBaBa41".
Definition resolver_b : string := "0x231b0Ee14048e9dCcD1d247744d114a4EB5E8E63".

Definition A : N := 1.

Definition hash (s : string) : string := "hash:" ++ s.

Definition registry (registry node : string) : string :=
  if String.eqb registry Ethereum.ENS_ADDRESS then
    if String.eqb node (hash "example.eth") then resolver_a
    else if String.eqb node (hash "plain.eth") then resolver_b
    else Ethereum.ZERO_ADDRESS
  else Ethereum.ZERO_ADDRESS.

Definition zone (resolver name : string) (type : N) : string :=
  if String.eqb resolver resolver_a then
    if String.eqb name (hash "example.eth.") && N.eqb type wire.types.NS
    then "0x0102"
    else if String.eqb name (hash "example.eth.") && N.eqb type wire.types.DS
    then "0x03"
    else if String.eqb name (hash "www.example.eth.") && N.eqb type A
    then "0x0a0b"
    else "0x"
  else if String.eqb resolver resolver_b then
    if String.eqb name (hash "www.plain.eth.") && N.eqb type A
    then "0x0c"
    else if String.eqb name (hash "alias.plain.eth.")
            && N.eqb type wire.types.CNAME
    then "0x05"
    else "0x"
  else "0x".

Definition world : World := {|
  namehash := hash;
  keccak256 := fun b => hash (string_of_list_byte b);
  packName := list_byte_of_string;
  clock := fun n => (Z.of_nat n * 900000)%Z;
  registry_resolver := fun _ reg node => Returned (registry reg node);
  resolver_dnsRecord := fun _ res _ name type => Returned (Some (zone res name type))
|}.

(** A fresh engine. *)
Definition start : State := Ethereum.initial 0.

End Example.

(** ** Notions used to state the further properties *)

(** The text has no label separator (the dot). *)
Fixpoint no_dot (s : string) : bool :=
  match s with
  | EmptyString => true
  | String a rest => negb (Ascii.eqb a ".") && no_dot rest
  end.

(** The store holds no more entries than its capacity. *)
Definition within_capacity (c : LRU.t Item) : Prop :=
  List.length (LRU.items c) <= LRU.capacity c.

(** No resolver in the store is bound to the all-zero address. *)
Definition no_zero_resolver (c : LRU.t Item) : Prop :=
  forall key time r,
    In (key, ResolverItem time r) (LRU.items c) ->
    address r <> Ethereum.ZERO_ADDRESS.

(** A store as the engine keeps it: each key once, within the capacity,
    and without a resolver bound to the all-zero address. *)
Definition healthy (s : State) : Prop :=
  well_formed (cache s) /\ within_capacity (cache s)
  /\ no_zero_resolver (cache s).

(** A healthy store of capacity [cap]. *)
Definition healthy_at (cap : nat) (s : State) : Prop :=
  healthy s /\ LRU.capacity (cache s) = cap.

(** A call that is not a [dnsRecord] call to the all-zero address. *)
Definition not_to_zero_address (c : Call) : Prop :=
  forall node name type,
    c <> CallDnsRecord Ethereum.ZERO_ADDRESS node name type.

(** A resolver, when there is one, is not bound to the all-zero address. *)
Definition bound_resolver (o : option Resolver) : Prop :=
  forall r, o = Some r -> address r <> Ethereum.ZERO_ADDRESS.

(** The method keeps the invariant [I] of the state, whether it returns
    or throws, and every value it returns satisfies [Q]. *)
Definition preserves {A} (I : State -> Prop) (m : M A) (Q : A -> Prop) : Prop :=
  forall s, I s ->
    I (snd (m s)) /\ (forall a, fst (m s) = Returned a -> Q a).

(** The method adds at most [n] calls to the log, all of them in [P]. *)
Definition issues {A} (n : nat) (P : Call -> Prop) (m : M A) : Prop :=
  forall s, exists l,
    calls (snd (m s)) = (l ++ calls s)%list
    /\ List.length l <= n /\ Forall P l.

(** A [dnsRecord] call to the resolver at [addr] for the node hash [node]. *)
Definition dns_call_to (addr node : string) (c : Call) : Prop :=
  exists name type, c = CallDnsRecord addr node name type.

(** Either call of a resolution through the registry at [registry]: the
    lookup of the resolver of the node, or a [dnsRecord] call for it. *)
Definition resolution_call (registry node : string) (c : Call) : Prop :=
  c = CallRegistryResolver registry node
  \/ exists addr name type, c = CallDnsRecord addr node name type.

(** Neither contract read of the world ever fails. *)
Definition never_fails (w : World) : Prop :=
  (forall history registry node,
     exists a, registry_resolver w history registry node = Returned a)
  /\ (forall history resolver node name type,
        exists v,
          resolver_dnsRecord w history resolver node name type = Returned v).

(** The method returns a value (it does not throw) in every state. *)
Definition returns {A} (m : M A) : Prop :=
  forall s, exists a, fst (m s) = Returned a.

(** A full store of two stale records, read long after they were
    stored. *)
Definition full_store_of_two : State :=
  mkState
    (LRU.mk 2
       [(EthereumCache.toDnsKey "a." 1 "0x4976fb03C32e5B8cfe2b6cCB31c09Ba78EBaBa41",
         RecordItem 0 "0x01");
        (EthereumCache.toDnsKey "b." 1 "0x4976fb03C32e5B8cfe2b6cCB31c09Ba78EBaBa41",
         RecordItem 0 "0x02")])
    9 [].

(** ** Strings *)

Lemma append_assoc (a b c : string) : (a ++ b) ++ c = a ++ (b ++ c).
Proof.
  induction a as [|x a IH]; simpl; [reflexivity | now rewrite IH].
Qed.

Lemma no_separator_app (a b : string) :
  no_separator (a ++ b) = no_separator a && no_separator b.
Proof.
  induction a as [|x a IH]; simpl; [reflexivity|].
  rewrite IH. now rewrite andb_assoc.
Qed.

(** Cutting at the last separator: when what follows it has none, the two
    sides of the cut are determined. *)
Lemma cut_at_last_separator (a a' b b' : string) :
  no_separator b = true -> no_separator b' = true ->
  a ++ String ";" b = a' ++ String ";" b' ->
  a = a' /\ b = b'.
Proof.
  intros Hb Hb'. revert a'.
  induction a as [|x a IH]; intros [|x' a'] E; simpl in E.
  - injection E as E. now split.
  - injection E as Ex E. subst b.
    rewrite no_separator_app in Hb. simpl in Hb.
    rewrite andb_false_r in Hb. discriminate.
  - injection E as Ex E. subst b'.
    rewrite no_separator_app in Hb'. simpl in Hb'.
    rewrite andb_false_r in Hb'. discriminate.
  - injection E as Ex E. subst x'.
    destruct (IH _ E) as [-> ->]. now split.
Qed.

Lemma no_separator_uint (d : Decimal.uint) :
  no_separator (NilEmpty.string_of_uint d) = true.
Proof.
  induction d; simpl; auto.
Qed.

Lemma no_separator_toString (n : N) : no_separator (JS.toString n) = true.
Proof. apply no_separator_uint. Qed.

Lemma toString_inj (n m : N) : JS.toString n = JS.toString m -> n = m.
Proof.
  unfold JS.toString. intros E.
  assert (U : N.to_uint n = N.to_uint m).
  { apply (f_equal NilEmpty.uint_of_string) in E.
    rewrite !NilEmpty.usu in E. now injection E. }
  rewrite <- (DecimalN.Unsigned.of_to n), <- (DecimalN.Unsigned.of_to m).
  now rewrite U.
Qed.

(** ** Node derivation *)

Lemma toNode_multi_label (name : string) :
  1 < List.length (JS.split "." (util.trimFQDN name)) ->
  Ethereum.toNode name = deriveNode name.
Proof.
  intros H. unfold Ethereum.toNode, deriveNode.
  apply Nat.ltb_lt in H. now rewrite H.
Qed.

Lemma toNode_untrimmed (name : string) :
  util.isFQDN name = false -> Ethereum.toNode name = deriveNode name.
Proof.
  intros H. unfold Ethereum.toNode, deriveNode, util.trimFQDN.
  now rewrite H.
Qed.

(** C7, as stated, fails: on a single label with a trailing root dot the
    code returns the name as given, the root dot included, while the
    derivation described returns the trimmed name. *)
Lemma toNode_keeps_root_dot :
  Ethereum.toNode "eth." = "eth." /\ deriveNode "eth." = "eth"
  /\ Ethereum.toNode "eth." <> deriveNode "eth.".
Proof.
  repeat split; try reflexivity. vm_compute. discriminate.
Qed.

(** C7, amended: node derivation is a total function of the name; it trims
    a trailing root dot to split the name into labels, returns the last two
    labels joined when there is more than one label, and otherwise returns
    the name exactly as it was given (not trimmed).  It agrees with the
    derivation described on every name without a trailing root dot and on
    every name of more than one label, and on the three named examples. *)
Theorem toNode_spec :
  (forall name,
     let labels := JS.split "." (util.trimFQDN name) in
     Ethereum.toNode name =
       if Nat.ltb 1 (List.length labels)
       then JS.join "." (JS.slice_last 2 labels)
       else name)
  /\ (forall name,
        util.isFQDN name = false
        \/ 1 < List.length (JS.split "." (util.trimFQDN name)) ->
        Ethereum.toNode name = deriveNode name)
  /\ Ethereum.toNode "a.b.example.eth" = "example.eth"
  /\ Ethereum.toNode "eth" = "eth"
  /\ Ethereum.toNode "example.eth" = "example.eth".
Proof.
  split; [|split; [|repeat split]].
  - intros name labels. reflexivity.
  - intros name [H | H].
    + now apply toNode_untrimmed.
    + now apply toNode_multi_label.
Qed.

Lemma toNode_spec_witness :
  Ethereum.toNode "www.example.eth." = deriveNode "www.example.eth.".
Proof.
  apply (proj1 (proj2 toNode_spec)). right. vm_compute. lia.
Defined.

(** ** Cache keys *)

Lemma toDnsKey_shape (name : string) (type : N) (addr : string) :
  EthereumCache.toDnsKey name type addr =
  (String "0" (String ";" name) ++ String ";" (JS.toString type))
    ++ String ";" addr.
Proof.
  unfold EthereumCache.toDnsKey.
  change (JS.toString CACHE_TAGS.DNS) with "0".
  rewrite ?append_assoc. simpl. rewrite ?append_assoc. reflexivity.
Qed.

Lemma toResolverKey_shape (node registry : string) :
  EthereumCache.toResolverKey node registry =
  String "1" (String ";" node) ++ String ";" registry.
Proof.
  unfold EthereumCache.toResolverKey.
  change (JS.toString CACHE_TAGS.RESOLVER) with "1".
  rewrite ?append_assoc. simpl. rewrite ?append_assoc. reflexivity.
Qed.

Lemma toDnsKey_inj (n n' : string) (t t' : N) (r r' : string) :
  no_separator r = true -> no_separator r' = true ->
  EthereumCache.toDnsKey n t r = EthereumCache.toDnsKey n' t' r' ->
  n = n' /\ t = t' /\ r = r'.
Proof.
  intros Hr Hr' E. rewrite !toDnsKey_shape in E.
  destruct (cut_at_last_separator _ _ _ _ Hr Hr' E) as [E1 ->].
  destruct (cut_at_last_separator _ _ _ _
              (no_separator_toString t) (no_separator_toString t') E1)
    as [E2 Et].
  injection E2 as ->. apply toString_inj in Et. now subst.
Qed.

Lemma toResolverKey_inj (n n' r r' : string) :
  no_separator r = true -> no_separator r' = true ->
  EthereumCache.toResolverKey n r = EthereumCache.toResolverKey n' r' ->
  n = n' /\ r = r'.
Proof.
  intros Hr Hr' E. rewrite !toResolverKey_shape in E.
  destruct (cut_at_last_separator _ _ _ _ Hr Hr' E) as [E1 ->].
  injection E1 as ->. now split.
Qed.

Lemma tags_differ (n : string) (t : N) (r node registry : string) :
  EthereumCache.toDnsKey n t r <> EthereumCache.toResolverKey node registry.
Proof.
  rewrite toDnsKey_shape, toResolverKey_shape. simpl. discriminate.
Qed.

(** C9, as stated, fails: the parts of a key are joined with [;] and are
    not escaped, so two different triples give the same record key when
    an address contains the separator; so do two different pairs. *)
Lemma keys_collide_on_separator :
  EthereumCache.toDnsKey "a" 1 "2;x" = EthereumCache.toDnsKey "a;1" 2 "x"
  /\ ("a", 1%N, "2;x") <> ("a;1", 2%N, "x")
  /\ EthereumCache.toResolverKey "a" "b;c" = EthereumCache.toResolverKey "a;b" "c"
  /\ ("a", "b;c") <> ("a;b", "c").
Proof.
  repeat split; try reflexivity; discriminate.
Qed.

(** C9, amended: for addresses that do not contain the separator [;] (as
    the hexadecimal addresses the engine passes), two record keys are equal
    only if their (name, type, resolver address) triples are equal, and two
    resolver keys are equal only if their (node, registry address) pairs
    are equal; for all inputs, a record key never equals a resolver key. *)
Theorem cache_keys_disambiguate :
  (forall n t r n' t' r',
     no_separator r = true -> no_separator r' = true ->
     EthereumCache.toDnsKey n t r = EthereumCache.toDnsKey n' t' r' ->
     (n, t, r) = (n', t', r'))
  /\ (forall node reg node' reg',
        no_separator reg = true -> no_separator reg' = true ->
        EthereumCache.toResolverKey node reg
          = EthereumCache.toResolverKey node' reg' ->
        (node, reg) = (node', reg'))
  /\ (forall n t r node reg,
        EthereumCache.toDnsKey n t r <> EthereumCache.toResolverKey node reg).
Proof.
  split; [|split].
  - intros n t r n' t' r' Hr Hr' E.
    destruct (toDnsKey_inj _ _ _ _ _ _ Hr Hr' E) as (-> & -> & ->).
    reflexivity.
  - intros node reg node' reg' Hr Hr' E.
    destruct (toResolverKey_inj _ _ _ _ Hr Hr' E) as (-> & ->).
    reflexivity.
  - intros. apply tags_differ.
Qed.

Lemma cache_keys_disambiguate_witness :
  ("example.eth.", wire.types.NS, Ethereum.ENS_ADDRESS)
  = ("example.eth.", wire.types.NS, Ethereum.ENS_ADDRESS).
Proof.
  apply (proj1 cache_keys_disambiguate); reflexivity.
Defined.

(** ** The bounded store *)

Section StoreFacts.
Context {V : Type}.
Implicit Types (l : list (string * V)) (c : LRU.t V).

Lemma lookup_app key l l' :
  LRU.lookup key (l ++ l')%list =
  match LRU.lookup key l with
  | Some v => Some v
  | None => LRU.lookup key l'
  end.
Proof.
  induction l as [|[k v] l IH]; simpl; [reflexivity|].
  destruct (String.eqb k key); auto.
Qed.

Lemma lookup_unlink_same key l : LRU.lookup key (LRU.unlink key l) = None.
Proof.
  induction l as [|[k v] l IH]; simpl; [reflexivity|].
  destruct (String.eqb k key) eqn:E; simpl; [assumption|].
  now rewrite E.
Qed.

Lemma lookup_unlink_other key key' l :
  key' <> key -> LRU.lookup key' (LRU.unlink key l) = LRU.lookup key' l.
Proof.
  intros N. induction l as [|[k v] l IH]; simpl; [reflexivity|].
  destruct (String.eqb_spec k key) as [->|Nk]; simpl.
  - destruct (String.eqb_spec key key'); [congruence | assumption].
  - now rewrite IH.
Qed.

Lemma lookup_In key v l : LRU.lookup key l = Some v -> In (key, v) l.
Proof.
  induction l as [|[k x] l IH]; simpl; [discriminate|].
  destruct (String.eqb_spec k key) as [->|Nk].
  - intros [= ->]. now left.
  - intros H. right. auto.
Qed.

Lemma lookup_None_keys key l :
  LRU.lookup key l = None -> ~ In key (map fst l).
Proof.
  induction l as [|[k x] l IH]; simpl; [tauto|].
  destruct (String.eqb_spec k key) as [->|Nk]; [discriminate|].
  intros H [E | I]; [congruence | now apply IH].
Qed.

Lemma In_lookup key v l :
  NoDup (map fst l) -> In (key, v) l -> LRU.lookup key l = Some v.
Proof.
  induction l as [|[k x] l IH]; simpl; [tauto|].
  intros D [E | I].
  - injection E as -> ->. now rewrite String.eqb_refl.
  - inversion D as [|? ? Nk D']; subst.
    destruct (String.eqb_spec k key) as [->|_]; [|auto].
    exfalso. apply Nk. now apply (in_map fst) in I.
Qed.

Lemma In_skipn {A} (x : A) n (l : list A) : In x (skipn n l) -> In x l.
Proof.
  intros H. rewrite <- (firstn_skipn n l). apply in_or_app. now right.
Qed.

Lemma lookup_skipn_None key n l :
  LRU.lookup key l = None -> LRU.lookup key (skipn n l) = None.
Proof.
  revert l. induction n as [|n IH]; intros [|[k x] l]; simpl; auto.
  destruct (String.eqb k key); [discriminate | auto].
Qed.

Lemma lookup_skipn_last key v n l :
  LRU.lookup key l = None -> n <= List.length l ->
  LRU.lookup key (skipn n (l ++ [(key, v)])%list) = Some v.
Proof.
  intros H L. rewrite skipn_app.
  replace (n - List.length l) with 0 by lia. simpl.
  rewrite lookup_app, (lookup_skipn_None _ _ _ H). simpl.
  now rewrite String.eqb_refl.
Qed.

(** [get] returns the entry and moves it, without changing any lookup. *)
Lemma get_lookup key key' c :
  LRU.lookup key' (LRU.items (snd (LRU.get key c)))
  = LRU.lookup key' (LRU.items c).
Proof.
  unfold LRU.get. destruct (LRU.lookup key (LRU.items c)) as [v|] eqn:E;
    [|reflexivity].
  simpl. rewrite lookup_app. destruct (String.eqb_spec key key') as [<-|N].
  - rewrite lookup_unlink_same. simpl. now rewrite String.eqb_refl.
  - rewrite lookup_unlink_other by congruence.
    destruct (LRU.lookup key' (LRU.items c)); [reflexivity|].
    simpl. destruct (String.eqb_spec key key'); [contradiction | reflexivity].
Qed.

Lemma get_In key c kv :
  In kv (LRU.items (snd (LRU.get key c))) -> In kv (LRU.items c).
Proof.
  unfold LRU.get. destruct (LRU.lookup key (LRU.items c)) as [v|] eqn:E;
    [|auto].
  simpl. intros H. apply in_app_or in H as [H | [<- | []]].
  - unfold LRU.unlink in H. now apply filter_In in H.
  - now apply lookup_In.
Qed.

(** With room for one entry, [set] leaves the entry in the store. *)
Lemma set_lookup key v c :
  0 < LRU.capacity c ->
  LRU.lookup key (LRU.items (LRU.set key v c)) = Some v.
Proof.
  intros Hc. unfold LRU.set.
  destruct (Nat.eqb_spec (LRU.capacity c) 0) as [Z|_]; [lia|].
  destruct (LRU.lookup key (LRU.items c)) eqn:E; unfold LRU.compact; simpl;
    rewrite ?length_app; simpl.
  - apply lookup_skipn_last; [apply lookup_unlink_same | lia].
  - apply lookup_skipn_last; [assumption | lia].
Qed.

Lemma set_In key v c kv :
  In kv (LRU.items (LRU.set key v c)) ->
  In kv (LRU.items c) \/ kv = (key, v).
Proof.
  unfold LRU.set. destruct (Nat.eqb (LRU.capacity c) 0); [auto|].
  destruct (LRU.lookup key (LRU.items c)); unfold LRU.compact; simpl;
    intros H; apply In_skipn in H; apply in_app_or in H as [H | [<- | []]];
    auto.
  unfold LRU.unlink in H. apply filter_In in H. tauto.
Qed.

(** Each key stays in the store once. *)
Lemma unlink_keys key l : ~ In key (map fst (LRU.unlink key l)).
Proof.
  induction l as [|[k v] l IH]; simpl; [tauto|].
  destruct (String.eqb_spec k key) as [->|N]; simpl; [assumption|].
  intros [E | I]; [contradiction | now apply IH].
Qed.

Lemma unlink_NoDup key l :
  NoDup (map fst l) -> NoDup (map fst (LRU.unlink key l)).
Proof.
  induction l as [|[k v] l IH]; simpl; [auto|].
  intros D. inversion D as [|? ? Nk D']; subst.
  destruct (String.eqb k key); simpl; [auto|].
  constructor; [|auto].
  intros I. apply Nk. apply in_map_iff in I as ([k' v'] & E & I).
  simpl in E. subst k'. unfold LRU.unlink in I. apply filter_In in I.
  apply in_map_iff. exists (k, v'). tauto.
Qed.

Lemma NoDup_snoc {A} (x : A) (l : list A) :
  NoDup l -> ~ In x l -> NoDup (l ++ [x])%list.
Proof.
  induction l as [|a l IH]; simpl; intros D N.
  - constructor; [tauto | constructor].
  - inversion D as [|? ? Na D']; subst. constructor.
    + intros I. apply in_app_or in I as [I | [E | []]]; [tauto|].
      apply N. now left.
    + apply IH; tauto.
Qed.

Lemma NoDup_skipn {A} n (l : list A) : NoDup l -> NoDup (skipn n l).
Proof.
  revert l. induction n as [|n IH]; intros [|a l] D; simpl; auto.
  inversion D; auto.
Qed.

Lemma get_NoDup key c :
  NoDup (map fst (LRU.items c)) ->
  NoDup (map fst (LRU.items (snd (LRU.get key c)))).
Proof.
  intros D. unfold LRU.get.
  destruct (LRU.lookup key (LRU.items c)); [|assumption].
  simpl. rewrite map_app. simpl.
  apply NoDup_snoc; [now apply unlink_NoDup | apply unlink_keys].
Qed.

Lemma set_NoDup key v c :
  NoDup (map fst (LRU.items c)) ->
  NoDup (map fst (LRU.items (LRU.set key v c))).
Proof.
  intros D. unfold LRU.set.
  destruct (Nat.eqb (LRU.capacity c) 0); [assumption|].
  destruct (LRU.lookup key (LRU.items c)) eqn:E; unfold LRU.compact; simpl;
    rewrite <- skipn_map; apply NoDup_skipn; rewrite map_app; simpl;
    apply NoDup_snoc.
  - now apply unlink_NoDup.
  - apply unlink_keys.
  - assumption.
  - now apply lookup_None_keys.
Qed.

End StoreFacts.

(** ** The cache methods, run on a state *)

Section CacheRuns.
Variable w : World.

Lemma setRecord_run name type addr record s :
  EthereumCache.setRecord w name type addr record s =
  (Returned tt,
   mkState
     (LRU.set (EthereumCache.toDnsKey name type addr)
        (RecordItem (clock w (ticks s)) (stored_record record)) (cache s))
     (S (ticks s)) (calls s)).
Proof. reflexivity. Qed.

Lemma getRecord_run name type addr s :
  EthereumCache.getRecord w name type addr s =
  let key := EthereumCache.toDnsKey name type addr in
  match LRU.lookup key (LRU.items (cache s)) with
  | None => (Returned None, s)
  | Some item =>
      (Returned (if (clock w (ticks s) >? item_time item + CACHE_TTL)%Z
                 then None else item_record item),
       mkState (snd (LRU.get key (cache s))) (S (ticks s)) (calls s))
  end.
Proof.
  unfold EthereumCache.getRecord, bind, cache_get, LRU.get. simpl.
  destruct (LRU.lookup _ (LRU.items (cache s))) as [item|]; simpl.
  - unfold Date_now. simpl.
    now destruct (clock w (ticks s) >? item_time item + CACHE_TTL)%Z.
  - now destruct s.
Qed.

Lemma setResolver_run node registry resolver s :
  EthereumCache.setResolver w node registry (Some resolver) s =
  (Returned tt,
   mkState
     (LRU.set (EthereumCache.toResolverKey node registry)
        (ResolverItem (clock w (ticks s)) resolver) (cache s))
     (S (ticks s)) (calls s)).
Proof. reflexivity. Qed.

Lemma setResolver_absent node registry s :
  EthereumCache.setResolver w node registry None s = (Returned tt, s).
Proof. reflexivity. Qed.

Lemma getResolver_run node registry s :
  EthereumCache.getResolver w node registry s =
  let key := EthereumCache.toResolverKey node registry in
  match LRU.lookup key (LRU.items (cache s)) with
  | None => (Returned None, s)
  | Some item =>
      (Returned (if (clock w (ticks s) >? item_time item + CACHE_TTL)%Z
                 then None else item_resolver item),
       mkState (snd (LRU.get key (cache s))) (S (ticks s)) (calls s))
  end.
Proof.
  unfold EthereumCache.getResolver, bind, cache_get, LRU.get. simpl.
  destruct (LRU.lookup _ (LRU.items (cache s))) as [item|]; simpl.
  - unfold Date_now. simpl.
    now destruct (clock w (ticks s) >? item_time item + CACHE_TTL)%Z.
  - now destruct s.
Qed.

(** Neither read changes what the store holds under any key. *)
Lemma getRecord_keeps name type addr s key :
  LRU.lookup key (LRU.items (cache (snd (EthereumCache.getRecord w name type addr s))))
  = LRU.lookup key (LRU.items (cache s)).
Proof.
  rewrite getRecord_run. simpl.
  destruct (LRU.lookup _ (LRU.items (cache s))); [|reflexivity].
  simpl. apply get_lookup.
Qed.

Lemma getResolver_keeps node registry s key :
  LRU.lookup key (LRU.items (cache (snd (EthereumCache.getResolver w node registry s))))
  = LRU.lookup key (LRU.items (cache s)).
Proof.
  rewrite getResolver_run. simpl.
  destruct (LRU.lookup _ (LRU.items (cache s))); [|reflexivity].
  simpl. apply get_lookup.
Qed.

(** Neither read touches the log of remote calls. *)
Lemma getRecord_calls name type addr s :
  calls (snd (EthereumCache.getRecord w name type addr s)) = calls s.
Proof.
  rewrite getRecord_run. simpl.
  now destruct (LRU.lookup _ (LRU.items (cache s))).
Qed.

Lemma getResolver_calls node registry s :
  calls (snd (EthereumCache.getResolver w node registry s)) = calls s.
Proof.
  rewrite getResolver_run. simpl.
  now destruct (LRU.lookup _ (LRU.items (cache s))).
Qed.

End CacheRuns.

(** A write under another key leaves an entry where it is, as long as the
    store is not full. *)
Lemma set_other_lookup {V} (key key' : string) (v : V) (c : LRU.t V) :
  key' <> key -> List.length (LRU.items c) < LRU.capacity c ->
  LRU.lookup key (LRU.items (LRU.set key' v c)) = LRU.lookup key (LRU.items c).
Proof.
  intros N L. unfold LRU.set.
  destruct (Nat.eqb (LRU.capacity c) 0); [reflexivity|].
  assert (F : List.length (LRU.unlink key' (LRU.items c))
              <= List.length (LRU.items c)) by apply filter_length_le.
  assert (K : forall l, LRU.lookup key (l ++ [(key', v)])%list = LRU.lookup key l).
  { intros l. rewrite lookup_app. destruct (LRU.lookup key l); [reflexivity|].
    simpl. destruct (String.eqb_spec key' key); [contradiction | reflexivity]. }
  destruct (LRU.lookup key' (LRU.items c)); unfold LRU.compact; simpl;
    rewrite length_app; simpl.
  - replace (_ - LRU.capacity c) with 0 by lia. simpl.
    rewrite K. now apply lookup_unlink_other.
  - replace (_ - LRU.capacity c) with 0 by lia. simpl. apply K.
Qed.

(** ** Time to live *)

(** C10: both reads compare the reading time strictly against the time of
    storage plus the time to live.  An entry whose age is exactly the time
    to live is returned as fresh by [getRecord] and by [getResolver]; it is
    treated as stale exactly when the reading time exceeds the time of
    storage plus the time to live. *)
Theorem ttl_comparison_is_strict (w : World) (s : State) :
  (forall name type addr time record,
     LRU.lookup (EthereumCache.toDnsKey name type addr) (LRU.items (cache s))
       = Some (RecordItem time record) ->
     (clock w (ticks s) = time + CACHE_TTL ->
      fst (EthereumCache.getRecord w name type addr s) = Returned (Some record))
     /\ (fst (EthereumCache.getRecord w name type addr s) = Returned None
         <-> time + CACHE_TTL < clock w (ticks s)))%Z
  /\ (forall node registry time resolver,
        LRU.lookup (EthereumCache.toResolverKey node registry)
          (LRU.items (cache s)) = Some (ResolverItem time resolver) ->
        (clock w (ticks s) = time + CACHE_TTL ->
         fst (EthereumCache.getResolver w node registry s)
           = Returned (Some resolver))
        /\ (fst (EthereumCache.getResolver w node registry s) = Returned None
            <-> time + CACHE_TTL < clock w (ticks s)))%Z.
Proof.
  split.
  - intros name type addr time record H.
    rewrite getRecord_run. simpl. rewrite H. simpl.
    destruct (Z.gtb_spec (clock w (ticks s)) (time + CACHE_TTL)) as [G|G];
      split; try split; intros; try reflexivity; try lia; try discriminate.
  - intros node registry time resolver H.
    rewrite getResolver_run. simpl. rewrite H. simpl.
    destruct (Z.gtb_spec (clock w (ticks s)) (time + CACHE_TTL)) as [G|G];
      split; try split; intros; try reflexivity; try lia; try discriminate.
Qed.

Lemma ttl_comparison_is_strict_witness :
  fst (EthereumCache.getRecord Example.world "example.eth." wire.types.NS
         Example.resolver_a
         (mkState
            (cache (snd (EthereumCache.setRecord Example.world "example.eth."
                           wire.types.NS Example.resolver_a (Some "0x0102")
                           Example.start)))
            2 []))
  = Returned (Some "0x0102").
Proof.
  apply (proj1 (ttl_comparison_is_strict Example.world _) _ _ _ 0%Z "0x0102");
    reflexivity.
Defined.

(** C6: after [setRecord(n, t, r, bytes)] the store holds the entry; a
    [getRecord(n, t, r)] on that store returns [bytes] when it reads the
    clock within the 30 minutes of the time to live (an immediate read
    does); once the time elapsed since storage exceeds the time to live it
    returns none, and the entry is still in the store after that read.  No
    read ([getRecord], [getResolver]) removes or changes an entry, and a
    write under another key leaves it in place while the store has room:
    an entry goes by overwriting or eviction, not by the staleness check. *)
Theorem record_cache_ttl (w : World) (n : string) (t : N) (r bytes : string)
  (s : State) :
  0 < LRU.capacity (cache s) ->
  JS.falsy (Some bytes) = false ->
  let key := EthereumCache.toDnsKey n t r in
  let storedAt := clock w (ticks s) in
  let s1 := snd (EthereumCache.setRecord w n t r (Some bytes) s) in
  LRU.lookup key (LRU.items (cache s1)) = Some (RecordItem storedAt bytes)
  /\ (forall s2, cache s2 = cache s1 ->
        ((clock w (ticks s2) <= storedAt + CACHE_TTL)%Z ->
         fst (EthereumCache.getRecord w n t r s2) = Returned (Some bytes))
        /\ ((storedAt + CACHE_TTL < clock w (ticks s2))%Z ->
            fst (EthereumCache.getRecord w n t r s2) = Returned None
            /\ LRU.lookup key
                 (LRU.items (cache (snd (EthereumCache.getRecord w n t r s2))))
               = Some (RecordItem storedAt bytes)))
  /\ (forall s' n' t' r' k,
        LRU.lookup k
          (LRU.items (cache (snd (EthereumCache.getRecord w n' t' r' s'))))
        = LRU.lookup k (LRU.items (cache s')))
  /\ (forall s' node registry k,
        LRU.lookup k
          (LRU.items (cache (snd (EthereumCache.getResolver w node registry s'))))
        = LRU.lookup k (LRU.items (cache s')))
  /\ (forall (c : LRU.t Item) k k' v,
        k' <> k -> List.length (LRU.items c) < LRU.capacity c ->
        LRU.lookup k (LRU.items (LRU.set k' v c)) = LRU.lookup k (LRU.items c)).
Proof.
  intros Hcap Htruthy key storedAt s1.
  assert (Hstored : LRU.lookup key (LRU.items (cache s1))
                    = Some (RecordItem storedAt bytes)).
  { subst s1. rewrite setRecord_run. cbn [snd cache].
    rewrite set_lookup by assumption.
    unfold stored_record. now rewrite Htruthy. }
  split; [exact Hstored|]. split; [|split; [|split]].
  - intros s2 Hc. fold key. split; intros Ht.
    + rewrite getRecord_run. simpl. fold key. rewrite Hc, Hstored. simpl.
      destruct (Z.gtb_spec (clock w (ticks s2)) (storedAt + CACHE_TTL));
        [lia | reflexivity].
    + split.
      * rewrite getRecord_run. simpl. fold key. rewrite Hc, Hstored. simpl.
        destruct (Z.gtb_spec (clock w (ticks s2)) (storedAt + CACHE_TTL));
          [reflexivity | lia].
      * rewrite getRecord_keeps. now rewrite Hc.
  - intros. apply getRecord_keeps.
  - intros. apply getResolver_keeps.
  - intros. now apply set_other_lookup.
Qed.

Lemma record_cache_ttl_witness :
  fst (EthereumCache.getRecord Example.world "example.eth." wire.types.NS
         Example.resolver_a
         (snd (EthereumCache.setRecord Example.world "example.eth."
                 wire.types.NS Example.resolver_a (Some "0x0102")
                 Example.start)))
  = Returned (Some "0x0102").
Proof.
  destruct (record_cache_ttl Example.world "example.eth." wire.types.NS
              Example.resolver_a "0x0102" Example.start)
    as (_ & H & _).
  - vm_compute. lia.
  - reflexivity.
  - apply (H _ eq_refl). vm_compute. discriminate.
Defined.

(** ** Record store access *)

Section RecordAccess.
Variable w : World.

Lemma getRecord_returns name type addr s :
  exists v, fst (EthereumCache.getRecord w name type addr s) = Returned v.
Proof.
  rewrite getRecord_run. simpl.
  destruct (LRU.lookup _ (LRU.items (cache s))); simpl; eauto.
Qed.

(** A fresh, non-empty cached text is used without any remote call. *)
Lemma getRRSet_hit name type node r s cached :
  fst (EthereumCache.getRecord w name type (address r) s)
    = Returned (Some cached) ->
  cached <> EmptyString ->
  Ethereum.getRRSet w name type node (Some r) s =
  (Returned (rrset_of_record cached),
   snd (EthereumCache.getRecord w name type (address r) s)).
Proof.
  intros H N. unfold Ethereum.getRRSet, bind.
  destruct (EthereumCache.getRecord w name type (address r) s) as [o s1].
  simpl in H. subst o. simpl.
  apply String.eqb_neq in N. rewrite N. unfold ret, rrset_of_record. simpl.
  rewrite N. simpl.
  now destruct (String.eqb cached "0x").
Qed.

(** On a miss the resolver is asked, and its answer is stored and used. *)
Lemma getRRSet_miss name type node r s cached fetched :
  fst (EthereumCache.getRecord w name type (address r) s) = Returned cached ->
  JS.falsy cached = true ->
  resolver_dnsRecord w (calls s) (address r)
    (namehash w (util.trimFQDN node)) (Ethereum.hashDnsName w name) type
    = Returned fetched ->
  Ethereum.getRRSet w name type node (Some r) s =
  (Returned (rrset_of_record (stored_record fetched)),
   snd (EthereumCache.setRecord w name type (address r) fetched
          (after_call w name type node r s))).
Proof.
  intros H F R. unfold after_call.
  pose proof (getRecord_calls w name type (address r) s) as C.
  unfold Ethereum.getRRSet, bind.
  destruct (EthereumCache.getRecord w name type (address r) s) as [o s1].
  simpl in H, C. subst o. rewrite F. rewrite <- C in R.
  unfold call_dnsRecord. rewrite R. simpl.
  destruct fetched as [x|]; [|reflexivity].
  unfold ret, rrset_of_record, stored_record. simpl.
  destruct (String.eqb x EmptyString) eqn:E; simpl; [reflexivity|].
  now destruct (String.eqb x "0x").
Qed.

(** A failing remote call fails the fetch; nothing is stored. *)
Lemma getRRSet_failure name type node r s cached e :
  fst (EthereumCache.getRecord w name type (address r) s) = Returned cached ->
  JS.falsy cached = true ->
  resolver_dnsRecord w (calls s) (address r)
    (namehash w (util.trimFQDN node)) (Ethereum.hashDnsName w name) type
    = Thrown e ->
  Ethereum.getRRSet w name type node (Some r) s =
  (Thrown e, after_call w name type node r s).
Proof.
  intros H F R. unfold after_call.
  pose proof (getRecord_calls w name type (address r) s) as C.
  unfold Ethereum.getRRSet, bind.
  destruct (EthereumCache.getRecord w name type (address r) s) as [o s1].
  simpl in H, C. subst o. rewrite F. rewrite <- C in R.
  unfold call_dnsRecord. rewrite R. reflexivity.
Qed.

End RecordAccess.

(** C4: [getRRSet] returns none at once, without any remote call or change
    of state, when the resolver is absent.  Otherwise the record text is
    the fresh cached one or, failing that, the one fetched from the
    resolver (and stored, as the empty sentinel when the call returned
    nothing); the result is none when that text is the empty sentinel
    ["0x"], and otherwise the bytes obtained by hex-decoding the text after
    its two-character prefix. *)
Theorem getRRSet_spec (w : World) (name : string) (type : N) (node : string) :
  (forall s, Ethereum.getRRSet w name type node None s = (Returned None, s))
  /\ (forall r s cached,
        fst (EthereumCache.getRecord w name type (address r) s)
          = Returned (Some cached) ->
        cached <> EmptyString ->
        Ethereum.getRRSet w name type node (Some r) s
          = (Returned (rrset_of_record cached),
             snd (EthereumCache.getRecord w name type (address r) s))
        /\ calls (snd (Ethereum.getRRSet w name type node (Some r) s))
           = calls s)
  /\ (forall r s cached fetched,
        fst (EthereumCache.getRecord w name type (address r) s)
          = Returned cached ->
        JS.falsy cached = true ->
        resolver_dnsRecord w (calls s) (address r)
          (namehash w (util.trimFQDN node)) (Ethereum.hashDnsName w name) type
          = Returned fetched ->
        Ethereum.getRRSet w name type node (Some r) s
          = (Returned (rrset_of_record (stored_record fetched)),
             snd (EthereumCache.setRecord w name type (address r) fetched
                    (after_call w name type node r s)))
        /\ calls (snd (Ethereum.getRRSet w name type node (Some r) s))
           = CallDnsRecord (address r) (namehash w (util.trimFQDN node))
               (Ethereum.hashDnsName w name) type :: calls s)
  /\ rrset_of_record "0x" = None
  /\ (forall record,
        record <> "0x" ->
        rrset_of_record record
        = Some (JS.Buffer_from_hex (JS.substr 2 record)))
  /\ stored_record None = "0x"
  /\ stored_record (Some EmptyString) = "0x"
  /\ (forall record, record <> EmptyString -> stored_record (Some record) = record).
Proof.
  split; [|split; [|split; [|split; [|split; [|split; [|split]]]]]];
    try reflexivity.
  - intros r s cached H N.
    rewrite (getRRSet_hit w name type node r s cached H N). split.
    + reflexivity.
    + apply getRecord_calls.
  - intros r s cached fetched H F R.
    rewrite (getRRSet_miss w name type node r s cached fetched H F R). split.
    + reflexivity.
    + rewrite setRecord_run. unfold after_call. simpl.
      now rewrite getRecord_calls.
  - intros record N. unfold rrset_of_record.
    apply String.eqb_neq in N. now rewrite N.
  - intros record N. unfold stored_record, JS.falsy.
    apply String.eqb_neq in N. now rewrite N.
Qed.

Lemma getRRSet_spec_witness :
  fst (Ethereum.getRRSet Example.world "example.eth." wire.types.NS
         "example.eth" (Some (mkResolver Example.resolver_a)) Example.start)
  = Returned (Some [x01; x02]).
Proof.
  exact (f_equal fst
           (proj1
              (proj1 (proj2 (proj2 (getRRSet_spec Example.world "example.eth."
                                      wire.types.NS "example.eth")))
                 (mkResolver Example.resolver_a) Example.start None
                 (Some "0x0102") eq_refl eq_refl eq_refl))).
Defined.

(** ** The resolution chain *)

Section ResolutionChain.
Variables (w : World) (name : string) (node : string)
  (resolver : option Resolver).

Lemma resolve_exact_NS_DS s ns s1 ds s2 :
  Ethereum.getRRSet w name wire.types.NS node resolver s
    = (Returned (Some ns), s1) ->
  Ethereum.getRRSet w name wire.types.DS node resolver s1
    = (Returned (Some ds), s2) ->
  Ethereum.resolveDnsWithResolver w name wire.types.NS node resolver s
    = (Returned (Some (ns ++ ds)%list), s2).
Proof.
  intros H1 H2. unfold Ethereum.resolveDnsWithResolver, bind.
  rewrite H1. simpl. now rewrite H2.
Qed.

Lemma resolve_exact_NS_alone s ns s1 s2 :
  Ethereum.getRRSet w name wire.types.NS node resolver s
    = (Returned (Some ns), s1) ->
  Ethereum.getRRSet w name wire.types.DS node resolver s1
    = (Returned None, s2) ->
  Ethereum.resolveDnsWithResolver w name wire.types.NS node resolver s
    = (Returned (Some ns), s2).
Proof.
  intros H1 H2. unfold Ethereum.resolveDnsWithResolver, bind.
  rewrite H1. simpl. now rewrite H2.
Qed.

Lemma resolve_exact_other type s bytes s1 :
  type <> wire.types.NS ->
  Ethereum.getRRSet w name type node resolver s
    = (Returned (Some bytes), s1) ->
  Ethereum.resolveDnsWithResolver w name type node resolver s
    = (Returned (Some bytes), s1).
Proof.
  intros N H1. unfold Ethereum.resolveDnsWithResolver, bind.
  rewrite H1. apply N.eqb_neq in N. now rewrite N.
Qed.

(** Without an exact match the chain continues with the apex. *)
Lemma resolve_fallback type s s1 :
  Ethereum.getRRSet w name type node resolver s = (Returned None, s1) ->
  Ethereum.resolveDnsWithResolver w name type node resolver s =
  (nsSet <- Ethereum.getRRSet w (util.fqdn node) wire.types.NS node resolver ;;
   match nsSet with
   | Some nsSet =>
       dsSet <- Ethereum.getRRSet w (util.fqdn node) wire.types.DS node
                  resolver ;;
       match dsSet with
       | Some dsSet => ret (Some (nsSet ++ dsSet)%list)
       | None => ret (Some nsSet)
       end
   | None => Ethereum.getRRSet w name wire.types.CNAME node resolver
   end) s1.
Proof.
  intros H1. unfold Ethereum.resolveDnsWithResolver at 1. unfold bind at 1.
  now rewrite H1.
Qed.

End ResolutionChain.

(** ** Remote calls and failures *)

Lemma remote_only_ret {A} (a : A) : remote_only (ret a).
Proof.
  intros s. exists []. split; [reflexivity | discriminate].
Qed.

Lemma remote_only_bind {A B} (m : M A) (k : A -> M B) :
  remote_only m -> (forall a, remote_only (k a)) -> remote_only (bind m k).
Proof.
  intros Hm Hk s. unfold bind.
  destruct (Hm s) as (l1 & E1 & T1).
  destruct (m s) as [[a | e] s1]; simpl in *.
  - destruct (Hk a s1) as (l2 & E2 & T2).
    exists (l2 ++ l1)%list. split.
    + rewrite E2, E1. now rewrite app_assoc.
    + intros e H. specialize (T2 e H).
      destruct l2; [contradiction | discriminate].
  - exists l1. split; [assumption|]. intros e' _. now apply (T1 e).
Qed.

Lemma remote_only_Date_now w : remote_only (Date_now w).
Proof.
  intros s. exists []. split; [reflexivity | discriminate].
Qed.

Lemma remote_only_cache_get key : remote_only (cache_get key).
Proof.
  intros s. exists []. unfold cache_get.
  destruct (LRU.get key (cache s)). split; [reflexivity | discriminate].
Qed.

Lemma remote_only_cache_set key v : remote_only (cache_set key v).
Proof.
  intros s. exists []. split; [reflexivity | discriminate].
Qed.

Lemma remote_only_call_registry_resolver w registry node :
  remote_only (call_registry_resolver w registry node).
Proof.
  intros s. exists [CallRegistryResolver (registry_address registry) node].
  split; [reflexivity | discriminate].
Qed.

Lemma remote_only_call_dnsRecord w resolver node name type :
  remote_only (call_dnsRecord w resolver node name type).
Proof.
  intros s. exists [CallDnsRecord (address resolver) node name type].
  split; [reflexivity | discriminate].
Qed.

Create HintDb remote.

#[local] Hint Resolve remote_only_ret remote_only_Date_now remote_only_cache_get
  remote_only_cache_set remote_only_call_registry_resolver
  remote_only_call_dnsRecord : remote.

Ltac remote_only_step :=
  match goal with
  | |- remote_only (bind _ _) => apply remote_only_bind; [|intros ?]
  | |- remote_only (match ?x with _ => _ end) => destruct x
  | |- remote_only _ => solve [auto with remote]
  end.

Ltac remote_only_steps := cbv zeta; repeat remote_only_step.

Lemma remote_only_getRecord w name type addr :
  remote_only (EthereumCache.getRecord w name type addr).
Proof. unfold EthereumCache.getRecord. remote_only_steps. Qed.

Lemma remote_only_setRecord w name type addr record :
  remote_only (EthereumCache.setRecord w name type addr record).
Proof. unfold EthereumCache.setRecord. remote_only_steps. Qed.

Lemma remote_only_cache_getResolver w node registry :
  remote_only (EthereumCache.getResolver w node registry).
Proof. unfold EthereumCache.getResolver. remote_only_steps. Qed.

Lemma remote_only_setResolver w node registry resolver :
  remote_only (EthereumCache.setResolver w node registry resolver).
Proof. unfold EthereumCache.setResolver. remote_only_steps. Qed.

#[local] Hint Resolve remote_only_getRecord remote_only_setRecord
  remote_only_cache_getResolver remote_only_setResolver : remote.

Lemma remote_only_getResolverFromRegistry w name registry :
  remote_only (Ethereum.getResolverFromRegistry w name registry).
Proof. unfold Ethereum.getResolverFromRegistry. remote_only_steps. Qed.

#[local] Hint Resolve remote_only_getResolverFromRegistry : remote.

Lemma remote_only_getResolver w name registry :
  remote_only (Ethereum.getResolver w name registry).
Proof. unfold Ethereum.getResolver. remote_only_steps. Qed.

Lemma remote_only_getRRSet w name type node resolver :
  remote_only (Ethereum.getRRSet w name type node resolver).
Proof. unfold Ethereum.getRRSet. remote_only_steps. Qed.

#[local] Hint Resolve remote_only_getResolver remote_only_getRRSet : remote.

Lemma remote_only_resolveDnsWithResolver w name type node resolver :
  remote_only (Ethereum.resolveDnsWithResolver w name type node resolver).
Proof. unfold Ethereum.resolveDnsWithResolver. remote_only_steps. Qed.

#[local] Hint Resolve remote_only_resolveDnsWithResolver : remote.

Lemma remote_only_resolveDnsFromEns w name type node :
  remote_only (Ethereum.resolveDnsFromEns w name type node).
Proof.
  unfold Ethereum.resolveDnsFromEns, Ethereum.getEnsResolver.
  remote_only_steps.
Qed.

Lemma remote_only_resolveDnsFromRegistry w name type registry node :
  remote_only (Ethereum.resolveDnsFromRegistry w name type registry node).
Proof. unfold Ethereum.resolveDnsFromRegistry. remote_only_steps. Qed.

(** A call in the log stays in the log. *)
Lemma remote_only_keeps_calls {A} (m : M A) (s : State) (c : Call) :
  remote_only m -> In c (calls s) -> In c (calls (snd (m s))).
Proof.
  intros H I. destruct (H s) as (l & E & _). rewrite E.
  apply in_or_app. now right.
Qed.

Lemma bind_keeps_calls {A B} (m : M A) (k : A -> M B) (s : State) (c : Call) :
  (forall a, remote_only (k a)) ->
  In c (calls (snd (m s))) -> In c (calls (snd (bind m k s))).
Proof.
  intros Hk I. unfold bind. destruct (m s) as [[a | e] s1]; simpl in *.
  - now apply remote_only_keeps_calls.
  - assumption.
Qed.

(** On a cache miss the resolver is called, whatever it answers. *)
Lemma getRRSet_miss_calls w name type node r s cached :
  fst (EthereumCache.getRecord w name type (address r) s) = Returned cached ->
  JS.falsy cached = true ->
  calls (snd (Ethereum.getRRSet w name type node (Some r) s))
  = CallDnsRecord (address r) (namehash w (util.trimFQDN node))
      (Ethereum.hashDnsName w name) type :: calls s.
Proof.
  intros H F.
  destruct (resolver_dnsRecord w (calls s) (address r)
              (namehash w (util.trimFQDN node)) (Ethereum.hashDnsName w name)
              type) as [fetched | e] eqn:R.
  - rewrite (getRRSet_miss w name type node r s cached fetched H F R).
    rewrite setRecord_run. unfold after_call. simpl.
    now rewrite getRecord_calls.
  - rewrite (getRRSet_failure w name type node r s cached e H F R).
    unfold after_call. simpl. now rewrite getRecord_calls.
Qed.

(** ** Alternate-registry discovery *)

Lemma first_label_exists (labels : list string) :
  List.length labels = 3 -> exists addr, JS.index labels 0 = Some addr.
Proof.
  destruct labels as [|addr rest]; [discriminate|].
  intros _. now exists addr.
Qed.

(** C8: an NS owner name that fails the address-shape check (not exactly
    three labels, or a middle label other than [_eth], or a first label
    not of 42 characters) makes the alternate-registry path return none in
    the state it started in: no remote call is issued and the cache is not
    touched.  The check itself never raises: on every input the path
    throws only after it has issued a remote call. *)
Theorem malformed_discovery_short_circuits (w : World) (name : string)
  (type : N) (ns : string) (node : option string) :
  let labels := JS.split "." ns in
  (forall s,
     List.length labels <> 3
     \/ JS.index labels 1 <> Some "_eth"
     \/ option_map String.length (JS.index labels 0) <> Some 42 ->
     Ethereum.resolveDnsFromAbstractEns w name type ns node s
       = (Returned None, s))
  /\ remote_only (Ethereum.resolveDnsFromAbstractEns w name type ns node).
Proof.
  intros labels. split.
  - intros s H. unfold Ethereum.resolveDnsFromAbstractEns. fold labels.
    destruct (Nat.eqb_spec (List.length labels) 3) as [L|L]; [|reflexivity].
    cbn [negb].
    destruct (JS.index labels 1) as [middle|] eqn:E1; [|reflexivity].
    destruct (String.eqb_spec middle "_eth") as [->|N]; [|reflexivity].
    cbn [negb]. destruct (first_label_exists labels L) as [addr E0].
    rewrite E0 in *. cbn [option_map] in H.
    destruct (Nat.eqb_spec (String.length addr) 42) as [L42|L42];
      [|reflexivity].
    exfalso. destruct H as [H | [H | H]]; [contradiction | now apply H |].
    apply H. now rewrite L42.
  - unfold Ethereum.resolveDnsFromAbstractEns. fold labels.
    destruct (Nat.eqb_spec (List.length labels) 3) as [L|L];
      [|apply remote_only_ret].
    cbn [negb]. destruct (JS.index labels 1) as [middle|];
      [|apply remote_only_ret].
    destruct (String.eqb middle "_eth"); [|apply remote_only_ret].
    cbn [negb]. destruct (first_label_exists labels L) as [addr E0].
    rewrite E0. remote_only_steps.
Qed.

Lemma malformed_discovery_short_circuits_witness :
  Ethereum.resolveDnsFromAbstractEns Example.world "www.example.eth."
    Example.A "0x231b0Ee14048e9dCcD1d247744d114a4EB5E8E63._foo.zone" None
    Example.start
  = (Returned None, Example.start).
Proof.
  apply (proj1 (malformed_discovery_short_circuits Example.world
                  "www.example.eth." Example.A
                  "0x231b0Ee14048e9dCcD1d247744d114a4EB5E8E63._foo.zone" None)).
  right. left. vm_compute. discriminate.
Defined.

(** ** Resolver directory: absence is not cached *)

Section ResolverDirectory.
Variable w : World.

Lemma getRecord_ticks name type addr s :
  ticks s <= ticks (snd (EthereumCache.getRecord w name type addr s)).
Proof.
  rewrite getRecord_run. simpl.
  destruct (LRU.lookup _ (LRU.items (cache s))); simpl; lia.
Qed.

Lemma getResolver_ticks node registry s :
  ticks s <= ticks (snd (EthereumCache.getResolver w node registry s)).
Proof.
  rewrite getResolver_run. simpl.
  destruct (LRU.lookup _ (LRU.items (cache s))); simpl; lia.
Qed.

Lemma getRecord_In name type addr s kv :
  In kv (LRU.items (cache (snd (EthereumCache.getRecord w name type addr s)))) ->
  In kv (LRU.items (cache s)).
Proof.
  rewrite getRecord_run. simpl.
  destruct (LRU.lookup _ (LRU.items (cache s))); simpl; [|auto].
  apply get_In.
Qed.

Lemma getResolver_In node registry s kv :
  In kv (LRU.items (cache (snd (EthereumCache.getResolver w node registry s)))) ->
  In kv (LRU.items (cache s)).
Proof.
  rewrite getResolver_run. simpl.
  destruct (LRU.lookup _ (LRU.items (cache s))); simpl; [|auto].
  apply get_In.
Qed.

Lemma no_resolver_stored_ticks key s s' :
  no_resolver_stored w key s s' -> ticks s <= ticks s'.
Proof.
  induction 1 as [s | s s' name type addr _ IH | s s' name type addr record _ IH
                 | s s' node registry _ IH | s s' node registry _ IH
                 | s s' node registry resolver _ _ IH | s s' _ IH
                 | s s' c _ IH].
  - lia.
  - pose proof (getRecord_ticks name type addr s'). lia.
  - rewrite setRecord_run. simpl. lia.
  - pose proof (getResolver_ticks node registry s'). lia.
  - rewrite setResolver_absent. simpl. lia.
  - destruct resolver as [r|].
    + rewrite setResolver_run. simpl. lia.
    + rewrite setResolver_absent. simpl. lia.
  - simpl. lia.
  - simpl. lia.
Qed.

Lemma no_resolver_stored_all_miss key now s s' :
  no_resolver_stored w key s s' ->
  all_miss key now (cache s) -> all_miss key now (cache s').
Proof.
  intros R H0.
  induction R as [s | s s' name type addr _ IH | s s' name type addr record _ IH
                 | s s' node registry _ IH | s s' node registry _ IH
                 | s s' node registry resolver N _ IH | s s' _ IH
                 | s s' c _ IH];
    try specialize (IH H0).
  - assumption.
  - intros v I. apply IH. now apply getRecord_In in I.
  - intros v I. rewrite setRecord_run in I. simpl in I.
    apply set_In in I as [I | E]; [now apply IH|].
    injection E as _ ->. now right.
  - intros v I. apply IH. now apply getResolver_In in I.
  - now rewrite setResolver_absent.
  - destruct resolver as [r|]; [|now rewrite setResolver_absent].
    intros v I. rewrite setResolver_run in I. simpl in I.
    apply set_In in I as [I | E]; [now apply IH|].
    injection E as K _. now symmetry in K.
  - intros v [].
  - assumption.
Qed.

(** A store whose entries under the key all miss gives a miss. *)
Lemma all_miss_getResolver node registry now s :
  all_miss (EthereumCache.toResolverKey node registry) now (cache s) ->
  (now <= clock w (ticks s))%Z ->
  fst (EthereumCache.getResolver w node registry s) = Returned None.
Proof.
  intros H T. rewrite getResolver_run. simpl.
  destruct (LRU.lookup _ (LRU.items (cache s))) as [item|] eqn:E;
    [|reflexivity].
  simpl. apply lookup_In in E. destruct (H item E) as [S | S].
  - destruct (Z.gtb_spec (clock w (ticks s)) (item_time item + CACHE_TTL));
      [reflexivity | lia].
  - rewrite S. now destruct (_ >? _)%Z.
Qed.

(** In a well-formed store a miss means that every entry under the key
    misses from the reading time on. *)
Lemma miss_all_miss node registry s :
  well_formed (cache s) ->
  fst (EthereumCache.getResolver w node registry s) = Returned None ->
  all_miss (EthereumCache.toResolverKey node registry) (clock w (ticks s))
    (cache s).
Proof.
  intros WF H v I. apply (In_lookup _ _ _ WF) in I.
  rewrite getResolver_run in H. simpl in H. rewrite I in H. simpl in H.
  unfold misses_from.
  destruct (Z.gtb_spec (clock w (ticks s)) (item_time v + CACHE_TTL)).
  - left. lia.
  - right. now injection H.
Qed.

(** A miss is followed by a call to the registry, whatever it answers. *)
Lemma getResolver_miss_calls node registry s :
  fst (EthereumCache.getResolver w node registry s) = Returned None ->
  calls (snd (Ethereum.getResolver w node registry s))
  = CallRegistryResolver registry (namehash w node) :: calls s.
Proof.
  intros H. pose proof (getResolver_calls w node registry s) as C.
  unfold Ethereum.getResolver, bind.
  destruct (EthereumCache.getResolver w node registry s) as [o s1].
  simpl in H, C. subst o.
  unfold Ethereum.getResolverFromRegistry, bind, call_registry_resolver.
  simpl.
  destruct (registry_resolver w (calls s1) registry (namehash w node))
    as [addr | e]; simpl; [|now rewrite C].
  destruct (String.eqb addr Ethereum.ZERO_ADDRESS); simpl; now rewrite C.
Qed.

(** The zero address gives an absent resolver, and nothing is stored. *)
Lemma getResolver_zero node registry s :
  fst (EthereumCache.getResolver w node registry s) = Returned None ->
  registry_resolver w (calls s) registry (namehash w node)
    = Returned Ethereum.ZERO_ADDRESS ->
  let s1 := snd (EthereumCache.getResolver w node registry s) in
  Ethereum.getResolver w node registry s =
  (Returned None,
   mkState (cache s1) (ticks s1)
     (CallRegistryResolver registry (namehash w node) :: calls s)).
Proof.
  intros H Z. pose proof (getResolver_calls w node registry s) as C.
  unfold Ethereum.getResolver, bind.
  destruct (EthereumCache.getResolver w node registry s) as [o s1].
  simpl in H, C. subst o. simpl.
  unfold Ethereum.getResolverFromRegistry, bind, call_registry_resolver.
  simpl. rewrite C, Z. simpl. reflexivity.
Qed.

End ResolverDirectory.

(** C5: when [getResolver(node, registry)] misses the cache and the
    registry answers the all-zero address, it returns absent after exactly
    that one remote call and leaves what the cache holds, under every key,
    as it was; [setResolver] with an absent value changes nothing; and, as
    long as no resolver is stored under that key, every later
    [getResolver] for the pair misses the cache and calls the registry
    again.  (The store keeps each key once and the clock does not run
    backwards.) *)
Theorem absent_resolver_is_not_cached (w : World) (node registry : string)
  (s : State) :
  well_formed (cache s) ->
  monotone_clock w ->
  fst (EthereumCache.getResolver w node registry s) = Returned None ->
  registry_resolver w (calls s) registry (namehash w node)
    = Returned Ethereum.ZERO_ADDRESS ->
  let r := Ethereum.getResolver w node registry s in
  let call := CallRegistryResolver registry (namehash w node) in
  fst r = Returned None
  /\ calls (snd r) = call :: calls s
  /\ (forall k,
        LRU.lookup k (LRU.items (cache (snd r)))
        = LRU.lookup k (LRU.items (cache s)))
  /\ (forall s0 node0 registry0,
        EthereumCache.setResolver w node0 registry0 None s0 = (Returned tt, s0))
  /\ (forall s2,
        no_resolver_stored w (EthereumCache.toResolverKey node registry)
          (snd r) s2 ->
        fst (EthereumCache.getResolver w node registry s2) = Returned None
        /\ calls (snd (Ethereum.getResolver w node registry s2))
           = call :: calls s2).
Proof.
  intros WF Mono Hmiss Hzero r call. subst r call.
  rewrite (getResolver_zero w node registry s Hmiss Hzero). simpl.
  split; [reflexivity|]. split; [reflexivity|].
  split; [intros k; apply getResolver_keeps|].
  split; [reflexivity|].
  intros s2 R.
  assert (Hm : fst (EthereumCache.getResolver w node registry s2)
               = Returned None).
  { apply all_miss_getResolver with (now := clock w (ticks s)).
    - apply (no_resolver_stored_all_miss w _ _ _ _ R). simpl.
      intros v I. apply getResolver_In in I.
      now apply (miss_all_miss w node registry s WF Hmiss).
    - apply Mono. apply no_resolver_stored_ticks in R. simpl in R.
      pose proof (getResolver_ticks w node registry s). lia. }
  split; [exact Hm|]. now apply getResolver_miss_calls.
Qed.

Lemma absent_resolver_is_not_cached_witness :
  fst (Ethereum.getResolver Example.world "none.eth" Ethereum.ENS_ADDRESS
         Example.start) = Returned None
  /\ calls (snd (Ethereum.getResolver Example.world "none.eth"
                   Ethereum.ENS_ADDRESS Example.start))
     = [CallRegistryResolver Ethereum.ENS_ADDRESS "hash:none.eth"].
Proof.
  destruct (absent_resolver_is_not_cached Example.world "none.eth"
              Ethereum.ENS_ADDRESS Example.start) as (H1 & H2 & _).
  - constructor.
  - intros n m H. simpl. lia.
  - reflexivity.
  - reflexivity.
  - split; [exact H1 | exact H2].
Defined.

(** The store of a fresh engine keeps each key once, and so does the store
    after any cache method. *)
Lemma well_formed_initial n : well_formed (cache (Ethereum.initial n)).
Proof. constructor. Qed.

Lemma well_formed_getRecord w name type addr s :
  well_formed (cache s) ->
  well_formed (cache (snd (EthereumCache.getRecord w name type addr s))).
Proof.
  intros WF. rewrite getRecord_run. simpl.
  destruct (LRU.lookup _ (LRU.items (cache s))); [|assumption].
  simpl. now apply get_NoDup.
Qed.

Lemma well_formed_getResolver w node registry s :
  well_formed (cache s) ->
  well_formed (cache (snd (EthereumCache.getResolver w node registry s))).
Proof.
  intros WF. rewrite getResolver_run. simpl.
  destruct (LRU.lookup _ (LRU.items (cache s))); [|assumption].
  simpl. now apply get_NoDup.
Qed.

Lemma well_formed_setRecord w name type addr record s :
  well_formed (cache s) ->
  well_formed (cache (snd (EthereumCache.setRecord w name type addr record s))).
Proof.
  intros WF. rewrite setRecord_run. simpl. now apply set_NoDup.
Qed.

Lemma well_formed_setResolver w node registry resolver s :
  well_formed (cache s) ->
  well_formed (cache (snd (EthereumCache.setResolver w node registry resolver s))).
Proof.
  intros WF. destruct resolver as [r|]; [|assumption].
  rewrite setResolver_run. simpl. now apply set_NoDup.
Qed.

(** ** Worked scenarios *)

(** No exact record, no NS at the apex, no CNAME: no data. *)
Example scenario_no_data :
  fst (Ethereum.resolveDnsFromEns Example.world "mail.plain.eth." Example.A
         None Example.start) = Returned None.
Proof. reflexivity. Qed.

(** A well-shaped NS owner name triggers the discovery of the registry. *)
Example scenario_alternate_registry :
  Ethereum.resolveDnsFromAbstractEns Example.world "www.example.eth."
    Example.A "0x00000000000C2E074eC69A0dFb2997BA6C7d2e1e._eth.zone" None
    Example.start
  = Ethereum.resolveDnsFromEns Example.world "www.example.eth." Example.A
      None Example.start.
Proof. reflexivity. Qed.

(** The second fetch of a record is served by the cache. *)
Example scenario_cached_record :
  let r := Some (mkResolver Example.resolver_a) in
  let s1 := snd (Ethereum.getRRSet Example.world "www.example.eth." Example.A
                   "example.eth" r Example.start) in
  fst (Ethereum.getRRSet Example.world "www.example.eth." Example.A
         "example.eth" r s1) = Returned (Some [x0a; x0b])
  /\ calls (snd (Ethereum.getRRSet Example.world "www.example.eth." Example.A
                   "example.eth" r s1)) = calls s1.
Proof. split; reflexivity. Qed.

(** ** The engine refines the chain

    With a resolver whose answers do not change and a cache that holds
    nothing else, a fetch gives the RRset of the zone, whether it is served
    by the cache or by the resolver, and resolving gives what the fallback
    chain gives on the zone. *)

Section Refinement.
Variables (w : World) (r : Resolver) (node : string)
  (text : string -> N -> option string).
Hypothesis Hsteady : steady w r node text.
Hypothesis Haddr : no_separator (address r) = true.

Lemma getRRSet_coherent name type s :
  coherent text (address r) (cache s) ->
  fst (Ethereum.getRRSet w name type node (Some r) s)
    = Returned (zone_of text name type)
  /\ coherent text (address r)
       (cache (snd (Ethereum.getRRSet w name type node (Some r) s))).
Proof.
  intros C.
  destruct (getRecord_returns w name type (address r) s) as [cached Hc].
  destruct (JS.falsy cached) eqn:F.
  - rewrite (getRRSet_miss w name type node r s cached (text name type) Hc F
               (Hsteady _ _ _)).
    split; [reflexivity|].
    rewrite setRecord_run. unfold after_call. simpl.
    intros name' type' time record I.
    apply set_In in I as [I | E].
    + apply (C name' type' time). now apply getRecord_In in I.
    + pose proof (f_equal fst E) as K. pose proof (f_equal snd E) as V.
      cbn [fst snd] in K, V. injection V as _ ->.
      apply toDnsKey_inj in K as (-> & -> & _); auto.
  - destruct cached as [x|]; [|discriminate]. simpl in F.
    apply String.eqb_neq in F.
    rewrite (getRRSet_hit w name type node r s x Hc F). simpl. split.
    + f_equal. unfold zone_of. f_equal.
      rewrite getRecord_run in Hc. simpl in Hc.
      destruct (LRU.lookup _ (LRU.items (cache s))) as [item|] eqn:E;
        [|discriminate].
      simpl in Hc. apply lookup_In in E.
      destruct (_ >? _)%Z; [discriminate|].
      destruct item as [time record | time res]; [|discriminate].
      simpl in Hc. injection Hc as ->. now apply (C name type time).
    + intros name' type' time record I.
      apply (C name' type' time). now apply getRecord_In in I.
Qed.

Theorem resolve_refines_chain name type s :
  coherent text (address r) (cache s) ->
  fst (Ethereum.resolveDnsWithResolver w name type node (Some r) s)
    = Returned (chain (zone_of text) name type node)
  /\ coherent text (address r)
       (cache (snd (Ethereum.resolveDnsWithResolver w name type node
                      (Some r) s))).
Proof.
  intros C. unfold Ethereum.resolveDnsWithResolver, chain, bind.
  destruct (getRRSet_coherent name type s C) as [E1 C1].
  destruct (Ethereum.getRRSet w name type node (Some r) s) as [o1 s1].
  simpl in E1, C1. subst o1.
  destruct (zone_of text name type) as [exact|].
  - destruct (N.eqb type wire.types.NS); [|now split].
    destruct (getRRSet_coherent name wire.types.DS s1 C1) as [E2 C2].
    destruct (Ethereum.getRRSet w name wire.types.DS node (Some r) s1)
      as [o2 s2].
    simpl in E2, C2. subst o2.
    now destruct (zone_of text name wire.types.DS).
  - destruct (getRRSet_coherent (util.fqdn node) wire.types.NS s1 C1)
      as [E2 C2].
    destruct (Ethereum.getRRSet w (util.fqdn node) wire.types.NS node
                (Some r) s1) as [o2 s2].
    simpl in E2, C2. subst o2.
    destruct (zone_of text (util.fqdn node) wire.types.NS) as [ns|].
    + destruct (getRRSet_coherent (util.fqdn node) wire.types.DS s2 C2)
        as [E3 C3].
      destruct (Ethereum.getRRSet w (util.fqdn node) wire.types.DS node
                  (Some r) s2) as [o3 s3].
      simpl in E3, C3. subst o3.
      now destruct (zone_of text (util.fqdn node) wire.types.DS).
    + destruct (getRRSet_coherent name wire.types.CNAME s2 C2) as [E3 C3].
      destruct (Ethereum.getRRSet w name wire.types.CNAME node (Some r) s2)
        as [o3 s3].
      simpl in E3, C3. now subst o3.
Qed.

End Refinement.

(** ** Precedence of the resolution chain *)

Lemma chain_exact_NS zone name node ns :
  zone name wire.types.NS = Some ns ->
  chain zone name wire.types.NS node =
  match zone name wire.types.DS with
  | Some ds => Some (ns ++ ds)%list
  | None => Some ns
  end.
Proof. intros H. unfold chain. now rewrite H. Qed.

Lemma chain_exact_other zone name type node bytes :
  type <> wire.types.NS -> zone name type = Some bytes ->
  chain zone name type node = Some bytes.
Proof.
  intros N H. unfold chain. rewrite H. apply N.eqb_neq in N. now rewrite N.
Qed.

Lemma chain_fallback zone name type node :
  zone name type = None ->
  chain zone name type node =
  match zone (util.fqdn node) wire.types.NS with
  | Some ns =>
      match zone (util.fqdn node) wire.types.DS with
      | Some ds => Some (ns ++ ds)%list
      | None => Some ns
      end
  | None => zone name wire.types.CNAME
  end.
Proof. intros H. unfold chain. now rewrite H. Qed.

Lemma chain_None zone name type node :
  chain zone name type node = None <->
  zone name type = None
  /\ zone (util.fqdn node) wire.types.NS = None
  /\ zone name wire.types.CNAME = None.
Proof.
  unfold chain. split.
  - destruct (zone name type); [|].
    + destruct (N.eqb type wire.types.NS); [|discriminate].
      destruct (zone name wire.types.DS); discriminate.
    + destruct (zone (util.fqdn node) wire.types.NS); [|now auto].
      destruct (zone (util.fqdn node) wire.types.DS); discriminate.
  - intros (-> & -> & ->). reflexivity.
Qed.

(** C1: when the exact fetch for (X, NS) finds an RRset and the fetch for
    (X, DS) that follows finds one too, resolving (X, NS) returns the NS
    bytes followed by the DS bytes; when the DS fetch finds nothing it
    returns the NS bytes alone; and for every type other than NS an exact
    match is returned as it is.  In particular, with a resolver whose
    answers do not change and a cache that holds nothing else: when the
    resolver has an NS and a DS RRset for X, resolving (X, NS) returns NS
    followed by DS; when it has no DS RRset, NS alone; and an RRset of
    another type as it is. *)
Theorem exact_match_precedence (w : World) (name node : string)
  (resolver : option Resolver) (s : State) :
  (forall ns s1,
     Ethereum.getRRSet w name wire.types.NS node resolver s
       = (Returned (Some ns), s1) ->
     (forall ds s2,
        Ethereum.getRRSet w name wire.types.DS node resolver s1
          = (Returned (Some ds), s2) ->
        Ethereum.resolveDnsWithResolver w name wire.types.NS node resolver s
          = (Returned (Some (ns ++ ds)%list), s2))
     /\ (forall s2,
           Ethereum.getRRSet w name wire.types.DS node resolver s1
             = (Returned None, s2) ->
           Ethereum.resolveDnsWithResolver w name wire.types.NS node resolver s
             = (Returned (Some ns), s2)))
  /\ (forall type bytes s1,
        type <> wire.types.NS ->
        Ethereum.getRRSet w name type node resolver s
          = (Returned (Some bytes), s1) ->
        Ethereum.resolveDnsWithResolver w name type node resolver s
          = (Returned (Some bytes), s1))
  /\ (forall r text,
        resolver = Some r ->
        steady w r node text ->
        no_separator (address r) = true ->
        coherent text (address r) (cache s) ->
        (forall ns ds,
           zone_of text name wire.types.NS = Some ns ->
           zone_of text name wire.types.DS = Some ds ->
           fst (Ethereum.resolveDnsWithResolver w name wire.types.NS node
                  resolver s) = Returned (Some (ns ++ ds)%list))
        /\ (forall ns,
              zone_of text name wire.types.NS = Some ns ->
              zone_of text name wire.types.DS = None ->
              fst (Ethereum.resolveDnsWithResolver w name wire.types.NS node
                     resolver s) = Returned (Some ns))
        /\ (forall type bytes,
              type <> wire.types.NS ->
              zone_of text name type = Some bytes ->
              fst (Ethereum.resolveDnsWithResolver w name type node
                     resolver s) = Returned (Some bytes))).
Proof.
  split; [|split].
  - intros ns s1 H1. split.
    + intros ds s2 H2. now apply resolve_exact_NS_DS with (s1 := s1).
    + intros s2 H2. now apply resolve_exact_NS_alone with (s1 := s1).
  - intros type bytes s1 N H1. now apply resolve_exact_other.
  - intros r text -> St Ad Co.
    pose proof (fun type =>
                  proj1 (resolve_refines_chain w r node text St Ad name type
                           s Co)) as R.
    split; [|split].
    + intros ns ds Hns Hds. rewrite R, (chain_exact_NS _ _ _ _ Hns).
      now rewrite Hds.
    + intros ns Hns Hds. rewrite R, (chain_exact_NS _ _ _ _ Hns).
      now rewrite Hds.
    + intros type bytes N H. rewrite R.
      now rewrite (chain_exact_other _ _ _ _ _ N H).
Qed.

Lemma exact_match_precedence_witness :
  fst (Ethereum.resolveDnsWithResolver Example.world "example.eth."
         wire.types.NS "example.eth" (Some (mkResolver Example.resolver_a))
         Example.start)
  = Returned (Some [x01; x02; x03]).
Proof.
  destruct (exact_match_precedence Example.world "example.eth." "example.eth"
              (Some (mkResolver Example.resolver_a)) Example.start)
    as (_ & _ & H).
  destruct (H (mkResolver Example.resolver_a)
              (fun name type =>
                 Some (Example.zone Example.resolver_a
                         (Ethereum.hashDnsName Example.world name) type))
              eq_refl) as (H' & _).
  - intros history name type. reflexivity.
  - reflexivity.
  - intros name type time record I. destruct I.
  - apply (H' [x01; x02] [x03]); reflexivity.
Defined.

(** C2: when the exact fetch for (name, type) finds nothing, the chain
    fetches the NS RRset at [sname], the fully-qualified form of the node,
    not at the query name: on a cache miss the resolver is asked for the
    hashed [sname].  When that NS set is found the chain fetches DS at
    [sname] and returns NS followed by DS when DS is found, and the NS
    bytes alone otherwise.  In particular, with a resolver whose answers
    do not change and a cache that holds nothing else: when the resolver
    has no RRset for (name, type) and has an NS RRset at [sname], resolving
    returns that NS RRset, followed by the DS RRset at [sname] when there
    is one. *)
Theorem delegation_fallback_at_apex (w : World) (name : string) (type : N)
  (node : string) (resolver : option Resolver) (s : State) :
  let sname := util.fqdn node in
  (forall s1,
     Ethereum.getRRSet w name type node resolver s = (Returned None, s1) ->
     (forall ns s2,
        Ethereum.getRRSet w sname wire.types.NS node resolver s1
          = (Returned (Some ns), s2) ->
        (forall ds s3,
           Ethereum.getRRSet w sname wire.types.DS node resolver s2
             = (Returned (Some ds), s3) ->
           Ethereum.resolveDnsWithResolver w name type node resolver s
             = (Returned (Some (ns ++ ds)%list), s3))
        /\ (forall s3,
              Ethereum.getRRSet w sname wire.types.DS node resolver s2
                = (Returned None, s3) ->
              Ethereum.resolveDnsWithResolver w name type node resolver s
                = (Returned (Some ns), s3)))
     /\ (forall r cached,
           resolver = Some r ->
           fst (EthereumCache.getRecord w sname wire.types.NS (address r) s1)
             = Returned cached ->
           JS.falsy cached = true ->
           In (CallDnsRecord (address r) (namehash w (util.trimFQDN node))
                 (Ethereum.hashDnsName w sname) wire.types.NS)
              (calls (snd (Ethereum.resolveDnsWithResolver w name type node
                             resolver s)))))
  /\ (forall r text ns,
        resolver = Some r ->
        steady w r node text ->
        no_separator (address r) = true ->
        coherent text (address r) (cache s) ->
        zone_of text name type = None ->
        zone_of text sname wire.types.NS = Some ns ->
        (forall ds,
           zone_of text sname wire.types.DS = Some ds ->
           fst (Ethereum.resolveDnsWithResolver w name type node resolver s)
             = Returned (Some (ns ++ ds)%list))
        /\ (zone_of text sname wire.types.DS = None ->
            fst (Ethereum.resolveDnsWithResolver w name type node resolver s)
              = Returned (Some ns))).
Proof.
  intros sname. subst sname. split.
  - intros s1 H1.
    rewrite (resolve_fallback w name node resolver type s s1 H1). split.
    + intros ns s2 H2. split.
      * intros ds s3 H3. unfold bind. now rewrite H2, H3.
      * intros s3 H3. unfold bind. now rewrite H2, H3.
    + intros r cached -> Hc Hf. apply bind_keeps_calls.
      * intros a. remote_only_steps.
      * rewrite (getRRSet_miss_calls w (util.fqdn node) wire.types.NS node r
                   s1 cached Hc Hf).
        now left.
  - intros r text ns -> St Ad Co Hx Hns.
    rewrite (proj1 (resolve_refines_chain w r node text St Ad name type s Co)).
    rewrite (chain_fallback _ _ _ _ Hx), Hns. split.
    + intros ds Hds. now rewrite Hds.
    + intros Hds. now rewrite Hds.
Qed.

Lemma delegation_fallback_at_apex_witness :
  fst (Ethereum.resolveDnsWithResolver Example.world "mail.example.eth."
         Example.A "example.eth" (Some (mkResolver Example.resolver_a))
         Example.start)
  = Returned (Some [x01; x02; x03]).
Proof.
  destruct (delegation_fallback_at_apex Example.world "mail.example.eth."
              Example.A "example.eth" (Some (mkResolver Example.resolver_a))
              Example.start) as (_ & H).
  destruct (H (mkResolver Example.resolver_a)
              (fun name type =>
                 Some (Example.zone Example.resolver_a
                         (Ethereum.hashDnsName Example.world name) type))
              [x01; x02] eq_refl) as (H' & _).
  - intros history name type. reflexivity.
  - reflexivity.
  - intros name type time record I. destruct I.
  - reflexivity.
  - reflexivity.
  - apply (H' [x03]). reflexivity.
Defined.

(** C3: when neither the exact fetch nor the fetch of NS at the apex finds
    anything, the chain returns exactly what the fetch of the CNAME RRset
    of the query name returns, none included; and resolving returns none
    only when the three fetches (exact, apex NS, CNAME) all return none.
    In particular, with a resolver whose answers do not change and a cache
    that holds nothing else: when the resolver has no RRset for (name,
    type) and no NS RRset at the apex, resolving returns its CNAME RRset
    for the name, or none; and it returns none exactly when the resolver
    has none of the three. *)
Theorem alias_fallback_is_last (w : World) (name : string) (type : N)
  (node : string) (resolver : option Resolver) (s : State) :
  (forall s1 s2,
     Ethereum.getRRSet w name type node resolver s = (Returned None, s1) ->
     Ethereum.getRRSet w (util.fqdn node) wire.types.NS node resolver s1
       = (Returned None, s2) ->
     Ethereum.resolveDnsWithResolver w name type node resolver s
       = Ethereum.getRRSet w name wire.types.CNAME node resolver s2)
  /\ (forall s',
        Ethereum.resolveDnsWithResolver w name type node resolver s
          = (Returned None, s') ->
        exists s1 s2,
          Ethereum.getRRSet w name type node resolver s = (Returned None, s1)
          /\ Ethereum.getRRSet w (util.fqdn node) wire.types.NS node resolver s1
             = (Returned None, s2)
          /\ Ethereum.getRRSet w name wire.types.CNAME node resolver s2
             = (Returned None, s'))
  /\ (forall r text,
        resolver = Some r ->
        steady w r node text ->
        no_separator (address r) = true ->
        coherent text (address r) (cache s) ->
        (zone_of text name type = None ->
         zone_of text (util.fqdn node) wire.types.NS = None ->
         fst (Ethereum.resolveDnsWithResolver w name type node resolver s)
           = Returned (zone_of text name wire.types.CNAME))
        /\ (fst (Ethereum.resolveDnsWithResolver w name type node resolver s)
              = Returned None
            <-> zone_of text name type = None
                /\ zone_of text (util.fqdn node) wire.types.NS = None
                /\ zone_of text name wire.types.CNAME = None)).
Proof.
  split; [|split].
  - intros s1 s2 H1 H2.
    rewrite (resolve_fallback w name node resolver type s s1 H1).
    unfold bind. now rewrite H2.
  - intros s'. unfold Ethereum.resolveDnsWithResolver, bind.
    destruct (Ethereum.getRRSet w name type node resolver s)
      as [[[exact|] | e] s1] eqn:E1; try discriminate.
    + destruct (N.eqb type wire.types.NS); [|discriminate].
      destruct (Ethereum.getRRSet w name wire.types.DS node resolver s1)
        as [[[ds|] | e] s2]; discriminate.
    + destruct (Ethereum.getRRSet w (util.fqdn node) wire.types.NS node
                  resolver s1) as [[[ns|] | e] s2] eqn:E2; try discriminate.
      * destruct (Ethereum.getRRSet w (util.fqdn node) wire.types.DS node
                    resolver s2) as [[[ds|] | e] s3]; discriminate.
      * intros H. exists s1, s2. repeat split; assumption || reflexivity.
  - intros r text -> St Ad Co.
    rewrite (proj1 (resolve_refines_chain w r node text St Ad name type s Co)).
    split.
    + intros Hx Hns. now rewrite (chain_fallback _ _ _ _ Hx), Hns.
    + rewrite <- chain_None. split.
      * now intros [= ->].
      * now intros ->.
Qed.

Lemma alias_fallback_is_last_witness :
  fst (Ethereum.resolveDnsWithResolver Example.world "alias.plain.eth."
         Example.A "plain.eth" (Some (mkResolver Example.resolver_b))
         Example.start)
  = Returned (Some [x05]).
Proof.
  destruct (alias_fallback_is_last Example.world "alias.plain.eth."
              Example.A "plain.eth" (Some (mkResolver Example.resolver_b))
              Example.start) as (_ & _ & H).
  destruct (H (mkResolver Example.resolver_b)
              (fun name type =>
                 Some (Example.zone Example.resolver_b
                         (Ethereum.hashDnsName Example.world name) type))
              eq_refl) as (H' & _).
  - intros history name type. reflexivity.
  - reflexivity.
  - intros name type time record I. destruct I.
  - apply H'; reflexivity.
Defined.

(** * Further properties of the engine *)

(** ** Labels and the root dot *)

Lemma split_not_nil (s : string) : JS.split "." s <> [].
Proof.
  destruct s as [|a s]; simpl; [discriminate|].
  destruct (Ascii.eqb a "."); [discriminate|].
  destruct (JS.split "." s); discriminate.
Qed.

Lemma split_no_dot (s : string) : no_dot s = true -> JS.split "." s = [s].
Proof.
  induction s as [|a s IH]; simpl; [reflexivity|].
  destruct (Ascii.eqb a "."); simpl; [discriminate|].
  intros H. now rewrite (IH H).
Qed.

Lemma split_app_dot (a b : string) :
  no_dot a = true ->
  JS.split "." (a ++ String "." b) = a :: JS.split "." b.
Proof.
  induction a as [|x a IH]; simpl; [reflexivity|].
  destruct (Ascii.eqb x "."); simpl; [discriminate|].
  intros H. now rewrite (IH H).
Qed.

Lemma split_labels_no_dot (s : string) :
  Forall (fun l => no_dot l = true) (JS.split "." s).
Proof.
  induction s as [|a s IH]; simpl.
  - now constructor.
  - destruct (Ascii.eqb a ".") eqn:E.
    + now constructor.
    + destruct (JS.split "." s) as [|h t].
      * constructor; [|constructor]. simpl. now rewrite E.
      * inversion IH as [|? ? Hh Ht]; subst. constructor; [|assumption].
        simpl. now rewrite E.
Qed.

Lemma split_one_label (s : string) :
  List.length (JS.split "." s) = 1 -> no_dot s = true.
Proof.
  induction s as [|a s IH]; simpl; [reflexivity|].
  pose proof (split_not_nil s) as N.
  destruct (Ascii.eqb a "."); simpl.
  - destruct (JS.split "." s); [contradiction | discriminate].
  - destruct (JS.split "." s) as [|h t]; [contradiction|].
    simpl in *. intros H. apply IH. assumption.
Qed.

Lemma last_char_app (a b : string) :
  b <> EmptyString -> JS.last_char (a ++ b) = JS.last_char b.
Proof.
  intros N. induction a as [|x a IH]; simpl; [reflexivity|].
  rewrite IH. destruct (a ++ b) eqn:E; [|reflexivity].
  destruct a; simpl in E; [contradiction | discriminate].
Qed.

Lemma no_dot_not_FQDN (s : string) : no_dot s = true -> util.isFQDN s = false.
Proof.
  unfold util.isFQDN. induction s as [|a s IH]; simpl; [reflexivity|].
  intros H. apply andb_prop in H as [Ha Hs].
  destruct s as [|b s]; [now apply negb_true_iff in Ha | now apply IH].
Qed.

Lemma isFQDN_app_dot (s : string) : util.isFQDN (s ++ ".") = true.
Proof.
  unfold util.isFQDN. now rewrite last_char_app by discriminate.
Qed.

Lemma drop_last_app_dot (s : string) : JS.drop_last (s ++ ".") = s.
Proof.
  induction s as [|a s IH]; simpl; [reflexivity|].
  rewrite IH. destruct s; reflexivity.
Qed.

Lemma drop_last_FQDN (s : string) :
  util.isFQDN s = true -> JS.drop_last s ++ "." = s.
Proof.
  unfold util.isFQDN. induction s as [|a s IH]; [discriminate|].
  destruct s as [|b s].
  - simpl. intros H. apply Ascii.eqb_eq in H. now subst.
  - intros H.
    change (JS.drop_last (String a (String b s)))
      with (String a (JS.drop_last (String b s))).
    cbn [append]. f_equal. apply IH. exact H.
Qed.

(** Trimming after qualifying is trimming, and qualifying twice is
    qualifying once. *)
Lemma trimFQDN_fqdn (name : string) :
  util.trimFQDN (util.fqdn name) = util.trimFQDN name.
Proof.
  unfold util.fqdn. destruct (util.isFQDN name) eqn:E; [reflexivity|].
  unfold util.trimFQDN. now rewrite isFQDN_app_dot, drop_last_app_dot, E.
Qed.

Lemma fqdn_fqdn (name : string) : util.fqdn (util.fqdn name) = util.fqdn name.
Proof.
  unfold util.fqdn. destruct (util.isFQDN name) eqn:E.
  - now rewrite E.
  - now rewrite isFQDN_app_dot.
Qed.

Lemma slice_last_two {A} (l : list A) :
  2 <= List.length l ->
  exists x y, JS.slice_last 2 l = [x; y] /\ In x l /\ In y l.
Proof.
  intros L. unfold JS.slice_last.
  assert (H : List.length (skipn (List.length l - 2) l) = 2)
    by (rewrite length_skipn; lia).
  destruct (skipn (List.length l - 2) l) as [|x [|y [|z t]]] eqn:E;
    try discriminate.
  exists x, y. split; [reflexivity|].
  split; apply (In_skipn _ (List.length l - 2)); rewrite E; simpl; auto.
Qed.

(** The node derived from a name is the name itself when it has a single
    label, and two labels joined by a dot otherwise. *)
Lemma toNode_cases (name : string) :
  (List.length (JS.split "." (util.trimFQDN name)) = 1
   /\ Ethereum.toNode name = name)
  \/ (exists x y,
        no_dot x = true /\ no_dot y = true
        /\ Ethereum.toNode name = x ++ String "." y).
Proof.
  unfold Ethereum.toNode.
  pose proof (split_not_nil (util.trimFQDN name)) as N.
  pose proof (split_labels_no_dot (util.trimFQDN name)) as F.
  destruct (Nat.ltb_spec 1 (List.length (JS.split "." (util.trimFQDN name))))
    as [L|L].
  - right. destruct (slice_last_two _ L) as (x & y & E & Ix & Iy).
    exists x, y. rewrite Forall_forall in F.
    split; [now apply F|]. split; [now apply F|]. now rewrite E.
  - left. split; [|reflexivity].
    destruct (JS.split "." (util.trimFQDN name)); [contradiction|].
    simpl in *. lia.
Qed.

(** A node of two labels derives to itself. *)
Lemma toNode_two_labels (x y : string) :
  no_dot x = true -> no_dot y = true ->
  Ethereum.toNode (x ++ String "." y) = x ++ String "." y
  /\ List.length (JS.split "." (util.trimFQDN (x ++ String "." y))) <= 2.
Proof.
  intros Hx Hy. unfold Ethereum.toNode, util.trimFQDN.
  destruct y as [|c y].
  - change (x ++ String "." EmptyString) with (x ++ ".").
    rewrite isFQDN_app_dot, drop_last_app_dot, (split_no_dot x Hx).
    simpl. split; [reflexivity | lia].
  - assert (E : util.isFQDN (x ++ String "." (String c y)) = false).
    { unfold util.isFQDN.
      rewrite (last_char_app x (String "." (String c y))) by discriminate.
      change (JS.last_char (String "." (String c y)))
        with (JS.last_char (String c y)).
      exact (no_dot_not_FQDN (String c y) Hy). }
    rewrite E, (split_app_dot x _ Hx), (split_no_dot _ Hy).
    simpl. split; [reflexivity | lia].
Qed.

Lemma toNode_deriveNode (name : string) :
  Ethereum.toNode name = deriveNode name
  \/ Ethereum.toNode name = util.fqdn (deriveNode name).
Proof.
  destruct (Nat.ltb_spec 1 (List.length (JS.split "." (util.trimFQDN name))))
    as [L|L].
  - left. now apply toNode_multi_label.
  - destruct (util.isFQDN name) eqn:E.
    + right. unfold Ethereum.toNode, deriveNode.
      apply Nat.ltb_ge in L. rewrite L.
      assert (L1 : List.length (JS.split "." (util.trimFQDN name)) = 1).
      { pose proof (split_not_nil (util.trimFQDN name)).
        apply Nat.ltb_ge in L.
        destruct (JS.split "." (util.trimFQDN name)); [contradiction|].
        simpl in *. lia. }
      apply split_one_label, no_dot_not_FQDN in L1.
      unfold util.fqdn. rewrite L1. unfold util.trimFQDN. rewrite E.
      symmetry. now apply drop_last_FQDN.
    + left. now apply toNode_untrimmed.
Qed.

Lemma getRRSet_fqdn_node w name type node resolver :
  Ethereum.getRRSet w name type (util.fqdn node) resolver
  = Ethereum.getRRSet w name type node resolver.
Proof.
  unfold Ethereum.getRRSet. now rewrite trimFQDN_fqdn.
Qed.

Lemma resolve_fqdn_node w name type node resolver :
  Ethereum.resolveDnsWithResolver w name type (util.fqdn node) resolver
  = Ethereum.resolveDnsWithResolver w name type node resolver.
Proof.
  unfold Ethereum.resolveDnsWithResolver.
  now rewrite fqdn_fqdn, !getRRSet_fqdn_node.
Qed.

(** ** Node derivation, continued *)

(** X1: deriving the node of a derived node changes nothing, and a derived
    node has at most two labels once its root dot is trimmed. *)
Theorem toNode_idempotent (name : string) :
  Ethereum.toNode (Ethereum.toNode name) = Ethereum.toNode name
  /\ List.length (JS.split "." (util.trimFQDN (Ethereum.toNode name))) <= 2.
Proof.
  destruct (toNode_cases name) as [[L E] | (x & y & Hx & Hy & E)]; rewrite E.
  - rewrite E. split; [reflexivity | lia].
  - now apply toNode_two_labels.
Qed.

(** X2: a trailing root dot on the node makes no difference to a fetch
    or to the resolution chain: the node is only used trimmed (to hash
    it) and fully qualified (to fetch the delegation at the apex). *)
Theorem node_root_dot_is_irrelevant (w : World) (name : string) (type : N)
  (node : string) (resolver : option Resolver) (s : State) :
  Ethereum.getRRSet w name type (util.fqdn node) resolver s
    = Ethereum.getRRSet w name type node resolver s
  /\ Ethereum.resolveDnsWithResolver w name type (util.fqdn node) resolver s
     = Ethereum.resolveDnsWithResolver w name type node resolver s
  /\ (node <> EmptyString ->
      forall registry,
        Ethereum.resolveDnsFromRegistry w name type registry
          (Some (util.fqdn node)) s
        = Ethereum.resolveDnsFromRegistry w name type registry (Some node) s).
Proof.
  split; [now rewrite getRRSet_fqdn_node|].
  split; [now rewrite resolve_fqdn_node|].
  intros N registry. unfold Ethereum.resolveDnsFromRegistry.
  assert (E1 : Ethereum.node_or_default name (Some node) = node).
  { unfold Ethereum.node_or_default, JS.falsy.
    apply String.eqb_neq in N. now rewrite N. }
  assert (E2 : Ethereum.node_or_default name (Some (util.fqdn node))
               = util.fqdn node).
  { unfold Ethereum.node_or_default, JS.falsy.
    destruct (String.eqb_spec (util.fqdn node) EmptyString) as [Z|_];
      [|reflexivity].
    exfalso. unfold util.fqdn in Z.
    destruct (util.isFQDN node); [contradiction|].
    destruct node; discriminate. }
  rewrite E1, E2, trimFQDN_fqdn. unfold bind.
  destruct (Ethereum.getResolver w (util.trimFQDN node) registry s)
    as [[o | e] s1]; [now rewrite resolve_fqdn_node | reflexivity].
Qed.

Lemma node_root_dot_is_irrelevant_witness :
  Ethereum.resolveDnsFromRegistry Example.world "www.example.eth." Example.A
    Ethereum.ENS_ADDRESS (Some "example.eth.") Example.start
  = Ethereum.resolveDnsFromRegistry Example.world "www.example.eth." Example.A
      Ethereum.ENS_ADDRESS (Some "example.eth") Example.start.
Proof.
  apply (proj2 (proj2 (node_root_dot_is_irrelevant Example.world
                         "www.example.eth." Example.A "example.eth" None
                         Example.start))).
  discriminate.
Defined.

(** X3: resolving without a node is resolving with the node the name
    derives to, trimmed or not: the node [toNode] returns differs from the
    trimmed derivation by a root dot at most, which the engine ignores. *)
Theorem omitted_node_is_derived_node (w : World) (name : string) (type : N)
  (registry : string) (s : State) :
  Ethereum.resolveDnsFromRegistry w name type registry None s
  = Ethereum.resolveDnsFromRegistry w name type registry
      (Some (deriveNode name)) s
  /\ Ethereum.resolveDnsFromEns w name type None s
     = Ethereum.resolveDnsFromEns w name type (Some (deriveNode name)) s.
Proof.
  assert (H : forall reg,
             Ethereum.resolveDnsFromRegistry w name type reg None s
             = Ethereum.resolveDnsFromRegistry w name type reg
                 (Some (deriveNode name)) s).
  { intros reg. unfold Ethereum.resolveDnsFromRegistry.
    unfold Ethereum.node_or_default, JS.falsy.
    destruct (String.eqb (deriveNode name) EmptyString); [reflexivity|].
    destruct (toNode_deriveNode name) as [-> | ->]; [reflexivity|].
    rewrite trimFQDN_fqdn. unfold bind.
    destruct (Ethereum.getResolver w (util.trimFQDN (deriveNode name)) reg s)
      as [[o | e] s1]; [now rewrite resolve_fqdn_node | reflexivity]. }
  split; [apply H|]. exact (H Ethereum.ENS_ADDRESS).
Qed.

(** ** Alternate-registry discovery, continued *)

(** X4: an NS owner name of the shape [addr._eth.zone], with a first label
    of 42 characters, makes the alternate-registry path behave exactly as
    the resolution through the registry at [addr]; with the address of the
    root registry as first label it is the resolution from ENS. *)
Theorem well_shaped_owner_selects_registry (w : World) (name : string)
  (type : N) (addr zone : string) (node : option string) (s : State) :
  no_dot addr = true -> no_dot zone = true -> String.length addr = 42 ->
  Ethereum.resolveDnsFromAbstractEns w name type (addr ++ "._eth." ++ zone)
    node s
  = Ethereum.resolveDnsFromRegistry w name type addr node s.
Proof.
  intros Ha Hz L. unfold Ethereum.resolveDnsFromAbstractEns.
  change (addr ++ "._eth." ++ zone)
    with (addr ++ String "." ("_eth" ++ String "." zone)).
  rewrite (split_app_dot addr _ Ha), (split_app_dot "_eth" zone eq_refl).
  rewrite (split_no_dot zone Hz).
  cbn [List.length Nat.eqb negb JS.index nth_error].
  rewrite String.eqb_refl, L. reflexivity.
Qed.

Lemma well_shaped_owner_selects_registry_witness :
  Ethereum.resolveDnsFromAbstractEns Example.world "www.example.eth."
    Example.A (Ethereum.ENS_ADDRESS ++ "._eth." ++ "zone") None Example.start
  = Ethereum.resolveDnsFromEns Example.world "www.example.eth." Example.A
      None Example.start.
Proof.
  apply (well_shaped_owner_selects_registry Example.world "www.example.eth."
           Example.A Ethereum.ENS_ADDRESS "zone" None Example.start);
    reflexivity.
Defined.

(** ** The resolver cache *)

(** X5: after [setResolver(node, registry, resolver)] with a resolver, the
    store holds it under the key of the pair; a [getResolver(node,
    registry)] on that store returns it when it reads the clock within the
    time to live, and none once the time elapsed since storage exceeds the
    time to live. *)
Theorem resolver_cache_ttl (w : World) (node registry : string) (r : Resolver)
  (s : State) :
  0 < LRU.capacity (cache s) ->
  let key := EthereumCache.toResolverKey node registry in
  let storedAt := clock w (ticks s) in
  let s1 := snd (EthereumCache.setResolver w node registry (Some r) s) in
  LRU.lookup key (LRU.items (cache s1)) = Some (ResolverItem storedAt r)
  /\ (forall s2, cache s2 = cache s1 ->
        ((clock w (ticks s2) <= storedAt + CACHE_TTL)%Z ->
         fst (EthereumCache.getResolver w node registry s2)
           = Returned (Some r))
        /\ ((storedAt + CACHE_TTL < clock w (ticks s2))%Z ->
            fst (EthereumCache.getResolver w node registry s2)
              = Returned None)).
Proof.
  intros Hcap key storedAt s1.
  assert (Hstored : LRU.lookup key (LRU.items (cache s1))
                    = Some (ResolverItem storedAt r)).
  { subst s1. rewrite setResolver_run. cbn [snd cache].
    now apply set_lookup. }
  split; [exact Hstored|].
  intros s2 Hc. split; intros Ht; rewrite getResolver_run; simpl; fold key;
    rewrite Hc, Hstored; simpl;
    destruct (Z.gtb_spec (clock w (ticks s2)) (storedAt + CACHE_TTL));
    reflexivity || lia.
Qed.

Lemma resolver_cache_ttl_witness :
  fst (EthereumCache.getResolver Example.world "example.eth"
         Ethereum.ENS_ADDRESS
         (snd (EthereumCache.setResolver Example.world "example.eth"
                 Ethereum.ENS_ADDRESS (Some (mkResolver Example.resolver_a))
                 Example.start)))
  = Returned (Some (mkResolver Example.resolver_a)).
Proof.
  destruct (resolver_cache_ttl Example.world "example.eth"
              Ethereum.ENS_ADDRESS (mkResolver Example.resolver_a)
              Example.start) as (_ & H).
  - vm_compute. lia.
  - apply (H _ eq_refl). vm_compute. discriminate.
Defined.

(** X6: records and resolvers share the store without touching each
    other's entries: a [setRecord] adds or changes no entry under a
    resolver key and a [setResolver] none under a record key, for all
    names and addresses; while the store has room, what is stored under
    the other class's keys stays as it is. *)
Theorem cache_classes_do_not_clobber (w : World) (s : State)
  (name : string) (type : N) (addr : string) (record : option string)
  (node registry : string) (resolver : option Resolver) :
  let dns := EthereumCache.toDnsKey name type addr in
  let res := EthereumCache.toResolverKey node registry in
  let s1 := snd (EthereumCache.setRecord w name type addr record s) in
  let s2 := snd (EthereumCache.setResolver w node registry resolver s) in
  (forall v, In (res, v) (LRU.items (cache s1)) ->
             In (res, v) (LRU.items (cache s)))
  /\ (forall v, In (dns, v) (LRU.items (cache s2)) ->
                In (dns, v) (LRU.items (cache s)))
  /\ (List.length (LRU.items (cache s)) < LRU.capacity (cache s) ->
      LRU.lookup res (LRU.items (cache s1))
        = LRU.lookup res (LRU.items (cache s))
      /\ LRU.lookup dns (LRU.items (cache s2))
         = LRU.lookup dns (LRU.items (cache s))).
Proof.
  intros dns res s1 s2. subst s1 s2.
  pose proof (tags_differ name type addr node registry) as T. fold dns res in T.
  split; [|split].
  - intros v I. rewrite setRecord_run in I. cbn [snd cache] in I.
    apply set_In in I as [I | E]; [assumption|].
    apply (f_equal fst) in E. cbn [fst] in E. now symmetry in E.
  - intros v I. destruct resolver as [r|]; [|assumption].
    rewrite setResolver_run in I. cbn [snd cache] in I.
    apply set_In in I as [I | E]; [assumption|].
    apply (f_equal fst) in E. cbn [fst] in E. contradiction.
  - intros L. split.
    + rewrite setRecord_run. cbn [snd cache]. now apply set_other_lookup.
    + destruct resolver as [r|]; [|reflexivity].
      rewrite setResolver_run. cbn [snd cache].
      apply set_other_lookup; [|assumption].
      intros E. apply T. now symmetry.
Qed.

Lemma cache_classes_do_not_clobber_witness :
  LRU.lookup (EthereumCache.toResolverKey "example.eth" Ethereum.ENS_ADDRESS)
    (LRU.items
       (cache (snd (EthereumCache.setRecord Example.world "example.eth."
                      wire.types.NS Example.resolver_a (Some "0x0102")
                      Example.start))))
  = None.
Proof.
  apply (proj1 (proj2 (proj2 (cache_classes_do_not_clobber Example.world
                                Example.start "example.eth." wire.types.NS
                                Example.resolver_a (Some "0x0102")
                                "example.eth" Ethereum.ENS_ADDRESS None))
                  ltac:(vm_compute; lia))).
Defined.

(** X7: [reset] empties the store for both classes of entries and keeps
    its capacity: after it every [getRecord] and every [getResolver] is a
    miss that does not even read the clock, so that the next fetch of a
    record calls the resolver. *)
Theorem reset_clears_both_classes (w : World) (s : State) :
  let s1 := snd (EthereumCache.reset s) in
  fst (EthereumCache.reset s) = Returned tt
  /\ LRU.items (cache s1) = []
  /\ LRU.capacity (cache s1) = LRU.capacity (cache s)
  /\ ticks s1 = ticks s /\ calls s1 = calls s
  /\ (forall name type addr,
        EthereumCache.getRecord w name type addr s1 = (Returned None, s1))
  /\ (forall node registry,
        EthereumCache.getResolver w node registry s1 = (Returned None, s1))
  /\ (forall name type node r,
        calls (snd (Ethereum.getRRSet w name type node (Some r) s1))
        = CallDnsRecord (address r) (namehash w (util.trimFQDN node))
            (Ethereum.hashDnsName w name) type :: calls s).
Proof.
  intros s1. subst s1.
  assert (G : forall name type addr,
             EthereumCache.getRecord w name type addr
               (snd (EthereumCache.reset s))
             = (Returned None, snd (EthereumCache.reset s))).
  { intros. now rewrite getRecord_run. }
  split; [reflexivity|]. split; [reflexivity|]. split; [reflexivity|].
  split; [reflexivity|]. split; [reflexivity|]. split; [exact G|]. split.
  - intros. now rewrite getResolver_run.
  - intros name type node r.
    rewrite (getRRSet_miss_calls w name type node r _ None);
      [reflexivity | now rewrite G | reflexivity].
Qed.

(** ** The resolver directory *)

Lemma getResolver_hit w node registry s r :
  fst (EthereumCache.getResolver w node registry s) = Returned (Some r) ->
  Ethereum.getResolver w node registry s
  = (Returned (Some r), snd (EthereumCache.getResolver w node registry s)).
Proof.
  intros H. unfold Ethereum.getResolver, bind.
  destruct (EthereumCache.getResolver w node registry s) as [o s1].
  simpl in H. now subst o.
Qed.

(** X8: when the cache holds a fresh resolver for the pair,
    [getResolver] returns it without any remote call; what the store
    holds, under every key, stays as it is. *)
Theorem cached_resolver_is_served (w : World) (node registry : string)
  (s : State) (r : Resolver) :
  fst (EthereumCache.getResolver w node registry s) = Returned (Some r) ->
  let run := Ethereum.getResolver w node registry s in
  fst run = Returned (Some r)
  /\ calls (snd run) = calls s
  /\ (forall k, LRU.lookup k (LRU.items (cache (snd run)))
                = LRU.lookup k (LRU.items (cache s))).
Proof.
  intros H run. subst run. rewrite (getResolver_hit w node registry s r H).
  cbn [fst snd]. split; [reflexivity|]. split.
  - apply getResolver_calls.
  - intros k. apply getResolver_keeps.
Qed.

Lemma cached_resolver_is_served_witness :
  calls (snd (Ethereum.getResolver Example.world "example.eth"
                Ethereum.ENS_ADDRESS
                (snd (Ethereum.getResolver Example.world "example.eth"
                        Ethereum.ENS_ADDRESS Example.start))))
  = [CallRegistryResolver Ethereum.ENS_ADDRESS "hash:example.eth"].
Proof.
  destruct (cached_resolver_is_served Example.world "example.eth"
              Ethereum.ENS_ADDRESS
              (snd (Ethereum.getResolver Example.world "example.eth"
                      Ethereum.ENS_ADDRESS Example.start))
              (mkResolver Example.resolver_a) eq_refl) as (_ & H & _).
  exact H.
Defined.

Lemma getResolver_found w node registry s addr :
  fst (EthereumCache.getResolver w node registry s) = Returned None ->
  registry_resolver w (calls s) registry (namehash w node) = Returned addr ->
  addr <> Ethereum.ZERO_ADDRESS ->
  let s1 := snd (EthereumCache.getResolver w node registry s) in
  Ethereum.getResolver w node registry s =
  (Returned (Some (mkResolver addr)),
   mkState
     (LRU.set (EthereumCache.toResolverKey node registry)
        (ResolverItem (clock w (ticks s1)) (mkResolver addr)) (cache s1))
     (S (ticks s1))
     (CallRegistryResolver registry (namehash w node) :: calls s)).
Proof.
  intros H R N. pose proof (getResolver_calls w node registry s) as C.
  unfold Ethereum.getResolver, bind.
  destruct (EthereumCache.getResolver w node registry s) as [o s1].
  simpl in H, C. subst o. cbn [snd].
  unfold Ethereum.getResolverFromRegistry, bind, call_registry_resolver.
  cbn [Ethereum.getAbstractEnsRegistry registry_address calls].
  rewrite C, R. apply String.eqb_neq in N. rewrite N. reflexivity.
Qed.

(** X9: when the cache misses and the registry answers an address other
    than the all-zero one, [getResolver] returns a resolver bound to that
    address after exactly that one remote call, and stores it: a later
    [getResolver] for the pair on that store, within the time to live,
    returns the same resolver without calling the registry. *)
Theorem found_resolver_is_cached (w : World) (node registry : string)
  (s : State) (addr : string) :
  0 < LRU.capacity (cache s) ->
  fst (EthereumCache.getResolver w node registry s) = Returned None ->
  registry_resolver w (calls s) registry (namehash w node) = Returned addr ->
  addr <> Ethereum.ZERO_ADDRESS ->
  let run := Ethereum.getResolver w node registry s in
  let storedAt :=
    clock w (ticks (snd (EthereumCache.getResolver w node registry s))) in
  fst run = Returned (Some (mkResolver addr))
  /\ calls (snd run) = CallRegistryResolver registry (namehash w node) :: calls s
  /\ (forall s2,
        cache s2 = cache (snd run) ->
        (clock w (ticks s2) <= storedAt + CACHE_TTL)%Z ->
        fst (Ethereum.getResolver w node registry s2)
          = Returned (Some (mkResolver addr))
        /\ calls (snd (Ethereum.getResolver w node registry s2)) = calls s2).
Proof.
  intros Hcap Hmiss Hreg Hnz run storedAt. subst run storedAt.
  rewrite (getResolver_found w node registry s addr Hmiss Hreg Hnz).
  cbn [fst snd calls cache]. split; [reflexivity|]. split; [reflexivity|].
  intros s2 Hc Ht.
  assert (Hhit : fst (EthereumCache.getResolver w node registry s2)
                 = Returned (Some (mkResolver addr))).
  { rewrite getResolver_run. simpl. rewrite Hc.
    rewrite set_lookup.
    - simpl.
      destruct (Z.gtb_spec (clock w (ticks s2))
                  (clock w (ticks (snd (EthereumCache.getResolver w node
                                          registry s))) + CACHE_TTL));
        [lia | reflexivity].
    - rewrite getResolver_run. simpl.
      destruct (LRU.lookup _ (LRU.items (cache s))); simpl;
        [|assumption].
      unfold LRU.get.
      now destruct (LRU.lookup _ (LRU.items (cache s))). }
  rewrite (getResolver_hit w node registry s2 _ Hhit). cbn [fst snd].
  split; [reflexivity | apply getResolver_calls].
Qed.

Lemma found_resolver_is_cached_witness :
  fst (Ethereum.getResolver Example.world "example.eth" Ethereum.ENS_ADDRESS
         Example.start)
  = Returned (Some (mkResolver Example.resolver_a)).
Proof.
  destruct (found_resolver_is_cached Example.world "example.eth"
              Ethereum.ENS_ADDRESS Example.start Example.resolver_a)
    as (H & _).
  - vm_compute. lia.
  - reflexivity.
  - reflexivity.
  - discriminate.
  - exact H.
Defined.

(** ** Record store access, continued *)

Lemma stored_record_not_empty (v : option string) :
  stored_record v <> EmptyString.
Proof.
  destruct v as [x|]; simpl; [|discriminate].
  destruct (String.eqb_spec x EmptyString); [discriminate | assumption].
Qed.

Lemma getRecord_capacity w name type addr s :
  LRU.capacity (cache (snd (EthereumCache.getRecord w name type addr s)))
  = LRU.capacity (cache s).
Proof.
  rewrite getRecord_run. simpl.
  destruct (LRU.lookup _ (LRU.items (cache s))) eqn:E; [|reflexivity].
  simpl. unfold LRU.get. now rewrite E.
Qed.

Lemma getResolver_capacity w node registry s :
  LRU.capacity (cache (snd (EthereumCache.getResolver w node registry s)))
  = LRU.capacity (cache s).
Proof.
  rewrite getResolver_run. simpl.
  destruct (LRU.lookup _ (LRU.items (cache s))) eqn:E; [|reflexivity].
  simpl. unfold LRU.get. now rewrite E.
Qed.

(** X10: what a fetch obtains from the resolver, the empty answer
    included, is cached: after a cache miss and a call that answers,
    [getRRSet] returns the RRset of the answer, and a later [getRRSet] for
    the same name, type and resolver on that store, within the time to
    live, returns the same result without calling the resolver. *)
Theorem fetched_record_is_cached (w : World) (name : string) (type : N)
  (node : string) (r : Resolver) (s : State)
  (cached fetched : option string) :
  0 < LRU.capacity (cache s) ->
  fst (EthereumCache.getRecord w name type (address r) s) = Returned cached ->
  JS.falsy cached = true ->
  resolver_dnsRecord w (calls s) (address r)
    (namehash w (util.trimFQDN node)) (Ethereum.hashDnsName w name) type
    = Returned fetched ->
  let run := Ethereum.getRRSet w name type node (Some r) s in
  let storedAt :=
    clock w (ticks (snd (EthereumCache.getRecord w name type (address r) s))) in
  fst run = Returned (rrset_of_record (stored_record fetched))
  /\ (forall s2 node2,
        cache s2 = cache (snd run) ->
        (clock w (ticks s2) <= storedAt + CACHE_TTL)%Z ->
        fst (Ethereum.getRRSet w name type node2 (Some r) s2) = fst run
        /\ calls (snd (Ethereum.getRRSet w name type node2 (Some r) s2))
           = calls s2).
Proof.
  intros Hcap Hc Hf Hr run storedAt. subst run storedAt.
  rewrite (getRRSet_miss w name type node r s cached fetched Hc Hf Hr).
  cbn [fst snd]. split; [reflexivity|].
  intros s2 node2 Hs2 Ht.
  assert (Hhit : fst (EthereumCache.getRecord w name type (address r) s2)
                 = Returned (Some (stored_record fetched))).
  { rewrite getRecord_run. simpl. rewrite Hs2, setRecord_run.
    unfold after_call. cbn [snd cache ticks].
    rewrite set_lookup by (now rewrite getRecord_capacity). simpl.
    destruct (Z.gtb_spec (clock w (ticks s2))
                (clock w (ticks (snd (EthereumCache.getRecord w name type
                                        (address r) s))) + CACHE_TTL));
      [lia | reflexivity]. }
  rewrite (getRRSet_hit w name type node2 r s2 _ Hhit
             (stored_record_not_empty fetched)).
  cbn [fst snd]. split; [reflexivity | apply getRecord_calls].
Qed.

Lemma fetched_record_is_cached_witness :
  fst (Ethereum.getRRSet Example.world "mail.example.eth." Example.A
         "example.eth" (Some (mkResolver Example.resolver_a)) Example.start)
  = Returned None.
Proof.
  destruct (fetched_record_is_cached Example.world "mail.example.eth."
              Example.A "example.eth" (mkResolver Example.resolver_a)
              Example.start None (Some "0x")) as (H & _).
  - vm_compute. lia.
  - reflexivity.
  - reflexivity.
  - reflexivity.
  - exact H.
Defined.

(** X11: a stale record is fetched again and overwritten: when the store
    holds a record older than the time to live, [getRRSet] calls the
    resolver, returns the RRset of the new answer and stores the answer
    with the time of the new reading of the clock. *)
Theorem stale_record_is_refreshed (w : World) (name : string) (type : N)
  (node : string) (r : Resolver) (s : State) (time : Z) (old : string)
  (fetched : option string) :
  0 < LRU.capacity (cache s) ->
  LRU.lookup (EthereumCache.toDnsKey name type (address r))
    (LRU.items (cache s)) = Some (RecordItem time old) ->
  (time + CACHE_TTL < clock w (ticks s))%Z ->
  resolver_dnsRecord w (calls s) (address r)
    (namehash w (util.trimFQDN node)) (Ethereum.hashDnsName w name) type
    = Returned fetched ->
  let run := Ethereum.getRRSet w name type node (Some r) s in
  fst run = Returned (rrset_of_record (stored_record fetched))
  /\ calls (snd run)
     = CallDnsRecord (address r) (namehash w (util.trimFQDN node))
         (Ethereum.hashDnsName w name) type :: calls s
  /\ LRU.lookup (EthereumCache.toDnsKey name type (address r))
       (LRU.items (cache (snd run)))
     = Some (RecordItem (clock w (S (ticks s))) (stored_record fetched)).
Proof.
  intros Hcap Hl Hstale Hr run. subst run.
  assert (Hg : EthereumCache.getRecord w name type (address r) s
               = (Returned None,
                  mkState
                    (snd (LRU.get (EthereumCache.toDnsKey name type (address r))
                            (cache s)))
                    (S (ticks s)) (calls s))).
  { rewrite getRecord_run. cbn zeta. rewrite Hl. cbn [item_time].
    destruct (Z.gtb_spec (clock w (ticks s)) (time + CACHE_TTL));
      [reflexivity | lia]. }
  assert (Hc : fst (EthereumCache.getRecord w name type (address r) s)
               = Returned None) by now rewrite Hg.
  rewrite (getRRSet_miss w name type node r s None fetched Hc eq_refl Hr).
  cbn [fst snd]. rewrite setRecord_run. unfold after_call. rewrite Hg.
  cbn [snd cache ticks calls].
  split; [reflexivity|]. split; [reflexivity|].
  apply set_lookup. unfold LRU.get. now rewrite Hl.
Qed.

Lemma stale_record_is_refreshed_witness :
  fst (Ethereum.getRRSet Example.world "www.example.eth." Example.A
         "example.eth" (Some (mkResolver Example.resolver_a))
         (mkState
            (cache (snd (EthereumCache.setRecord Example.world
                           "www.example.eth." Example.A Example.resolver_a
                           (Some "0x") Example.start)))
            3 []))
  = Returned (Some [x0a; x0b]).
Proof.
  destruct (stale_record_is_refreshed Example.world "www.example.eth."
              Example.A "example.eth" (mkResolver Example.resolver_a)
              (mkState
                 (cache (snd (EthereumCache.setRecord Example.world
                                "www.example.eth." Example.A
                                Example.resolver_a (Some "0x") Example.start)))
                 3 [])
              0%Z "0x" (Some "0x0a0b")) as (H & _).
  - vm_compute. lia.
  - reflexivity.
  - vm_compute. reflexivity.
  - reflexivity.
  - exact H.
Defined.

(** X12: a failing [dnsRecord] call fails the fetch and the whole
    resolution with the same error, after that one call, and is not
    cached as an absence: what the store holds, under every key, stays as
    it is. *)
Theorem failed_fetch_is_not_cached (w : World) (name : string) (type : N)
  (node : string) (r : Resolver) (s : State) (cached : option string)
  (e : string) :
  fst (EthereumCache.getRecord w name type (address r) s) = Returned cached ->
  JS.falsy cached = true ->
  resolver_dnsRecord w (calls s) (address r)
    (namehash w (util.trimFQDN node)) (Ethereum.hashDnsName w name) type
    = Thrown e ->
  let s' := after_call w name type node r s in
  Ethereum.getRRSet w name type node (Some r) s = (Thrown e, s')
  /\ Ethereum.resolveDnsWithResolver w name type node (Some r) s
     = (Thrown e, s')
  /\ calls s'
     = CallDnsRecord (address r) (namehash w (util.trimFQDN node))
         (Ethereum.hashDnsName w name) type :: calls s
  /\ (forall k, LRU.lookup k (LRU.items (cache s'))
                = LRU.lookup k (LRU.items (cache s))).
Proof.
  intros Hc Hf Hr s'. subst s'.
  pose proof (getRRSet_failure w name type node r s cached e Hc Hf Hr) as G.
  split; [exact G|]. split.
  - unfold Ethereum.resolveDnsWithResolver, bind. now rewrite G.
  - unfold after_call. cbn [calls cache]. split.
    + now rewrite getRecord_calls.
    + intros k. apply getRecord_keeps.
Qed.

Lemma failed_fetch_is_not_cached_witness :
  fst (Ethereum.resolveDnsWithResolver
         (mkWorld Example.hash (fun _ => "k") (fun _ => []) (fun _ => 0%Z)
            (fun _ _ _ => Thrown "network")
            (fun _ _ _ _ _ => Thrown "network"))
         "www.example.eth." Example.A "example.eth"
         (Some (mkResolver Example.resolver_a)) Example.start)
  = Thrown "network".
Proof.
  destruct (failed_fetch_is_not_cached
              (mkWorld Example.hash (fun _ => "k") (fun _ => [])
                 (fun _ => 0%Z) (fun _ _ _ => Thrown "network")
                 (fun _ _ _ _ _ => Thrown "network"))
              "www.example.eth." Example.A "example.eth"
              (mkResolver Example.resolver_a) Example.start None "network")
    as (_ & H & _).
  - reflexivity.
  - reflexivity.
  - reflexivity.
  - now rewrite H.
Defined.

(** ** Resolution through a registry *)

Lemma getResolver_failure w node registry s e :
  fst (EthereumCache.getResolver w node registry s) = Returned None ->
  registry_resolver w (calls s) registry (namehash w node) = Thrown e ->
  let s1 := snd (EthereumCache.getResolver w node registry s) in
  Ethereum.getResolver w node registry s =
  (Thrown e,
   mkState (cache s1) (ticks s1)
     (CallRegistryResolver registry (namehash w node) :: calls s)).
Proof.
  intros H R. pose proof (getResolver_calls w node registry s) as C.
  unfold Ethereum.getResolver, bind.
  destruct (EthereumCache.getResolver w node registry s) as [o s1].
  simpl in H, C. subst o. cbn [snd].
  unfold Ethereum.getResolverFromRegistry, bind, call_registry_resolver.
  cbn [Ethereum.getAbstractEnsRegistry registry_address calls].
  now rewrite C, R.
Qed.

Lemma resolve_without_resolver w name type node s :
  Ethereum.resolveDnsWithResolver w name type node None s
  = (Returned None, s).
Proof. reflexivity. Qed.

(** X13: a failing registry call fails [getResolver] and the resolution
    through that registry with the same error, after that one call;
    nothing is stored and no resolver is asked. *)
Theorem failed_registry_call_fails_resolution (w : World) (name : string)
  (type : N) (registry : string) (node : option string) (s : State)
  (e : string) :
  let n := util.trimFQDN (Ethereum.node_or_default name node) in
  fst (EthereumCache.getResolver w n registry s) = Returned None ->
  registry_resolver w (calls s) registry (namehash w n) = Thrown e ->
  let run := Ethereum.resolveDnsFromRegistry w name type registry node s in
  fst (Ethereum.getResolver w n registry s) = Thrown e
  /\ fst run = Thrown e
  /\ calls (snd run) = CallRegistryResolver registry (namehash w n) :: calls s
  /\ (forall k, LRU.lookup k (LRU.items (cache (snd run)))
                = LRU.lookup k (LRU.items (cache s))).
Proof.
  intros n Hmiss Hreg run. subst run.
  pose proof (getResolver_failure w n registry s e Hmiss Hreg) as G.
  cbn zeta in G. unfold Ethereum.resolveDnsFromRegistry, bind. fold n.
  rewrite G. cbn [fst snd calls cache].
  repeat split. intros k. apply getResolver_keeps.
Qed.

Lemma failed_registry_call_fails_resolution_witness :
  fst (Ethereum.resolveDnsFromRegistry
         (mkWorld Example.hash (fun _ => "k") (fun _ => []) (fun _ => 0%Z)
            (fun _ _ _ => Thrown "network")
            (fun _ _ _ _ _ => Thrown "network"))
         "www.example.eth." Example.A Ethereum.ENS_ADDRESS None Example.start)
  = Thrown "network".
Proof.
  destruct (failed_registry_call_fails_resolution
              (mkWorld Example.hash (fun _ => "k") (fun _ => [])
                 (fun _ => 0%Z) (fun _ _ _ => Thrown "network")
                 (fun _ _ _ _ _ => Thrown "network"))
              "www.example.eth." Example.A Ethereum.ENS_ADDRESS None
              Example.start "network") as (_ & H & _).
  - reflexivity.
  - reflexivity.
  - exact H.
Defined.

(** X14: without a resolver there is no data and nothing is asked: the
    chain returns none in the state it started in, and a resolution
    through a registry that answers the all-zero address returns none
    after the registry call alone, leaving what the store holds as it
    is. *)
Theorem no_resolver_no_data (w : World) (name : string) (type : N)
  (registry : string) (node : option string) (s : State) :
  let n := util.trimFQDN (Ethereum.node_or_default name node) in
  (forall node' s',
     Ethereum.resolveDnsWithResolver w name type node' None s'
     = (Returned None, s'))
  /\ (fst (EthereumCache.getResolver w n registry s) = Returned None ->
      registry_resolver w (calls s) registry (namehash w n)
        = Returned Ethereum.ZERO_ADDRESS ->
      let run := Ethereum.resolveDnsFromRegistry w name type registry node s in
      fst run = Returned None
      /\ calls (snd run)
         = [CallRegistryResolver registry (namehash w n)] ++ calls s
      /\ (forall k, LRU.lookup k (LRU.items (cache (snd run)))
                    = LRU.lookup k (LRU.items (cache s))))%list.
Proof.
  intros n. split; [reflexivity|].
  intros Hmiss Hzero run. subst run.
  pose proof (getResolver_zero w n registry s Hmiss Hzero) as G.
  cbn zeta in G. unfold Ethereum.resolveDnsFromRegistry, bind. fold n.
  rewrite G. rewrite resolve_without_resolver. cbn [fst snd calls cache].
  repeat split. intros k. apply getResolver_keeps.
Qed.

Lemma no_resolver_no_data_witness :
  fst (Ethereum.resolveDnsFromEns Example.world "www.none.eth." Example.A
         None Example.start) = Returned None
  /\ calls (snd (Ethereum.resolveDnsFromEns Example.world "www.none.eth."
                   Example.A None Example.start))
     = [CallRegistryResolver Ethereum.ENS_ADDRESS "hash:none.eth"].
Proof.
  destruct (no_resolver_no_data Example.world "www.none.eth." Example.A
              Ethereum.ENS_ADDRESS None Example.start) as (_ & H).
  destruct (H eq_refl eq_refl) as (H1 & H2 & _).
  split; [exact H1 | exact H2].
Defined.

(** ** How many remote calls a resolution makes *)

Lemma issues_ret {A} (P : Call -> Prop) (a : A) : issues 0 P (ret a).
Proof.
  intros s. exists []. repeat split; auto.
Qed.

Lemma issues_bind {A B} n1 n2 (P : Call -> Prop) (m : M A) (k : A -> M B) :
  issues n1 P m -> (forall a, issues n2 P (k a)) ->
  issues (n1 + n2) P (bind m k).
Proof.
  intros Hm Hk s. unfold bind.
  destruct (Hm s) as (l1 & E1 & L1 & F1).
  destruct (m s) as [[a | e] s1]; simpl in *.
  - destruct (Hk a s1) as (l2 & E2 & L2 & F2).
    exists (l2 ++ l1)%list. split; [|split].
    + rewrite E2, E1. now rewrite app_assoc.
    + rewrite length_app. lia.
    + apply Forall_app. now split.
  - exists l1. split; [assumption|]. split; [lia | assumption].
Qed.

Lemma issues_le {A} n n' (P : Call -> Prop) (m : M A) :
  issues n P m -> n <= n' -> issues n' P m.
Proof.
  intros H L s. destruct (H s) as (l & E & Ll & F).
  exists l. split; [assumption|]. split; [lia | assumption].
Qed.

Lemma issues_none {A} (P : Call -> Prop) (m : M A) :
  (forall s, calls (snd (m s)) = calls s) -> issues 0 P m.
Proof.
  intros H s. exists []. rewrite H. repeat split; auto.
Qed.

Lemma issues_getRecord w P name type addr :
  issues 0 P (EthereumCache.getRecord w name type addr).
Proof. apply issues_none. intros s. apply getRecord_calls. Qed.

Lemma issues_setRecord w P name type addr record :
  issues 0 P (EthereumCache.setRecord w name type addr record).
Proof. apply issues_none. reflexivity. Qed.

Lemma issues_cache_getResolver w P node registry :
  issues 0 P (EthereumCache.getResolver w node registry).
Proof. apply issues_none. intros s. apply getResolver_calls. Qed.

Lemma issues_setResolver w P node registry resolver :
  issues 0 P (EthereumCache.setResolver w node registry resolver).
Proof. apply issues_none. now destruct resolver. Qed.

Lemma issues_call_dnsRecord w r node name type :
  issues 1 (dns_call_to (address r) node) (call_dnsRecord w r node name type).
Proof.
  intros s. exists [CallDnsRecord (address r) node name type].
  split; [reflexivity|]. split; [simpl; lia|].
  constructor; [|constructor]. now exists name, type.
Qed.

Lemma issues_call_registry_resolver w registry node :
  issues 1 (fun c => c = CallRegistryResolver registry node)
    (call_registry_resolver w (mkRegistry registry) node).
Proof.
  intros s. exists [CallRegistryResolver registry node].
  split; [reflexivity|]. split; [simpl; lia|]. now constructor.
Qed.

Lemma issues_imp {A} n (P P' : Call -> Prop) (m : M A) :
  issues n P m -> (forall c, P c -> P' c) -> issues n P' m.
Proof.
  intros H I s. destruct (H s) as (l & E & L & F).
  exists l. split; [assumption|]. split; [assumption|].
  eapply Forall_impl; eauto.
Qed.

Lemma issues_getRRSet w name type node r :
  issues 1 (dns_call_to (address r) (namehash w (util.trimFQDN node)))
    (Ethereum.getRRSet w name type node (Some r)).
Proof.
  unfold Ethereum.getRRSet.
  apply (issues_bind 0 1); [apply issues_getRecord|]. intros cached.
  apply (issues_bind 1 0).
  - destruct (JS.falsy cached); [|apply (issues_le 0); [apply issues_ret | lia]].
    apply (issues_bind 1 0); [apply issues_call_dnsRecord|]. intros fetched.
    apply (issues_bind 0 0); [apply issues_setRecord|]. intros _.
    apply issues_ret.
  - intros [record|]; [|apply issues_ret].
    destruct (_ || _); apply issues_ret.
Qed.

Lemma issues_resolveDnsWithResolver w name type node r :
  issues 3 (dns_call_to (address r) (namehash w (util.trimFQDN node)))
    (Ethereum.resolveDnsWithResolver w name type node (Some r)).
Proof.
  unfold Ethereum.resolveDnsWithResolver.
  apply (issues_bind 1 2); [apply issues_getRRSet|]. intros [exact|].
  - destruct (N.eqb type wire.types.NS).
    + apply (issues_le 1); [|lia].
      apply (issues_bind 1 0); [apply issues_getRRSet|].
      intros [ds|]; apply issues_ret.
    + apply (issues_le 0); [apply issues_ret | lia].
  - apply (issues_bind 1 1).
    + apply issues_getRRSet.
    + intros [ns|].
      * apply (issues_bind 1 0).
        -- apply issues_getRRSet.
        -- intros [ds|]; apply issues_ret.
      * apply issues_getRRSet.
Qed.

Lemma issues_getResolver w node registry :
  issues 1 (fun c => c = CallRegistryResolver registry (namehash w node))
    (Ethereum.getResolver w node registry).
Proof.
  unfold Ethereum.getResolver.
  apply (issues_bind 0 1); [apply issues_cache_getResolver|].
  intros [r|]; [apply (issues_le 0); [apply issues_ret | lia]|].
  apply (issues_bind 1 0).
  - unfold Ethereum.getResolverFromRegistry.
    apply (issues_bind 1 0); [apply issues_call_registry_resolver|].
    intros addr. destruct (String.eqb addr _); apply issues_ret.
  - intros resolver.
    apply (issues_bind 0 0); [apply issues_setResolver|]. intros _.
    apply issues_ret.
Qed.

(** X15: a resolution through a given resolver makes at most three remote
    calls, all of them [dnsRecord] calls to that resolver for the hash of
    the trimmed node; a resolution through a registry makes at most four,
    one lookup of the resolver at that registry and the [dnsRecord] calls;
    a single fetch makes at most one and a lookup of the resolver at most
    one. *)
Theorem resolution_call_budget (w : World) (name : string) (type : N) :
  (forall node r,
     issues 1 (dns_call_to (address r) (namehash w (util.trimFQDN node)))
       (Ethereum.getRRSet w name type node (Some r)))
  /\ (forall node r,
        issues 3 (dns_call_to (address r) (namehash w (util.trimFQDN node)))
          (Ethereum.resolveDnsWithResolver w name type node (Some r)))
  /\ (forall node registry,
        issues 1 (fun c => c = CallRegistryResolver registry (namehash w node))
          (Ethereum.getResolver w node registry))
  /\ (forall registry node,
        issues 4
          (resolution_call registry
             (namehash w (util.trimFQDN (Ethereum.node_or_default name node))))
          (Ethereum.resolveDnsFromRegistry w name type registry node)).
Proof.
  split; [intros; apply issues_getRRSet|].
  split; [intros; apply issues_resolveDnsWithResolver|].
  split; [intros; apply issues_getResolver|].
  intros registry node. unfold Ethereum.resolveDnsFromRegistry.
  apply (issues_bind 1 3).
  - eapply issues_imp; [apply issues_getResolver|].
    intros c ->. now left.
  - intros [r|].
    + eapply issues_imp; [apply issues_resolveDnsWithResolver|].
      intros c (n & t & ->). right. now exists (address r), n, t.
    + apply (issues_le 0); [|lia]. apply issues_none. reflexivity.
Qed.

(** ** Failures come from the remote side only *)

Lemma returns_ret {A} (a : A) : returns (ret a).
Proof. intros s. now exists a. Qed.

Lemma returns_bind {A B} (m : M A) (k : A -> M B) :
  returns m -> (forall a, returns (k a)) -> returns (bind m k).
Proof.
  intros Hm Hk s. unfold bind. destruct (Hm s) as [a Ea].
  destruct (m s) as [o s1]. simpl in Ea. subst o. apply Hk.
Qed.

Lemma returns_getRecord w name type addr :
  returns (EthereumCache.getRecord w name type addr).
Proof. intros s. apply getRecord_returns. Qed.

Lemma returns_cache_getResolver w node registry :
  returns (EthereumCache.getResolver w node registry).
Proof.
  intros s. rewrite getResolver_run. simpl.
  destruct (LRU.lookup _ (LRU.items (cache s))); simpl; eauto.
Qed.

Lemma returns_setRecord w name type addr record :
  returns (EthereumCache.setRecord w name type addr record).
Proof. intros s. now exists tt. Qed.

Lemma returns_setResolver w node registry resolver :
  returns (EthereumCache.setResolver w node registry resolver).
Proof. intros s. exists tt. now destruct resolver. Qed.

Section Reliable.
Variable w : World.
Hypothesis Hw : never_fails w.

Lemma returns_call_dnsRecord r node name type :
  returns (call_dnsRecord w r node name type).
Proof. intros s. apply (proj2 Hw). Qed.

Lemma returns_call_registry_resolver registry node :
  returns (call_registry_resolver w registry node).
Proof. intros s. apply (proj1 Hw). Qed.

Lemma returns_getRRSet name type node resolver :
  returns (Ethereum.getRRSet w name type node resolver).
Proof.
  unfold Ethereum.getRRSet. destruct resolver as [r|]; [|apply returns_ret].
  apply returns_bind; [apply returns_getRecord|]. intros cached.
  apply returns_bind.
  - destruct (JS.falsy cached); [|apply returns_ret].
    apply returns_bind; [apply returns_call_dnsRecord|]. intros fetched.
    apply returns_bind; [apply returns_setRecord|]. intros _.
    apply returns_ret.
  - intros [record|]; [|apply returns_ret].
    destruct (_ || _); apply returns_ret.
Qed.

Lemma returns_resolveDnsWithResolver name type node resolver :
  returns (Ethereum.resolveDnsWithResolver w name type node resolver).
Proof.
  unfold Ethereum.resolveDnsWithResolver.
  apply returns_bind; [apply returns_getRRSet|]. intros [exact|].
  - destruct (N.eqb type wire.types.NS); [|apply returns_ret].
    apply returns_bind; [apply returns_getRRSet|].
    intros [ds|]; apply returns_ret.
  - apply returns_bind; [apply returns_getRRSet|]. intros [ns|].
    + apply returns_bind; [apply returns_getRRSet|].
      intros [ds|]; apply returns_ret.
    + apply returns_getRRSet.
Qed.

Lemma returns_getResolver node registry :
  returns (Ethereum.getResolver w node registry).
Proof.
  unfold Ethereum.getResolver.
  apply returns_bind; [apply returns_cache_getResolver|].
  intros [r|]; [apply returns_ret|].
  apply returns_bind.
  - unfold Ethereum.getResolverFromRegistry.
    apply returns_bind; [apply returns_call_registry_resolver|].
    intros addr. destruct (String.eqb addr _); apply returns_ret.
  - intros resolver.
    apply returns_bind; [apply returns_setResolver|]. intros _.
    apply returns_ret.
Qed.

Lemma returns_resolveDnsFromRegistry name type registry node :
  returns (Ethereum.resolveDnsFromRegistry w name type registry node).
Proof.
  unfold Ethereum.resolveDnsFromRegistry.
  apply returns_bind; [apply returns_getResolver|]. intros resolver.
  apply returns_resolveDnsWithResolver.
Qed.

Lemma returns_resolveDnsFromAbstractEns name type ns node :
  returns (Ethereum.resolveDnsFromAbstractEns w name type ns node).
Proof.
  unfold Ethereum.resolveDnsFromAbstractEns.
  destruct (Nat.eqb_spec (List.length (JS.split "." ns)) 3) as [L|L];
    [|apply returns_ret].
  cbn [negb]. destruct (JS.index (JS.split "." ns) 1) as [middle|];
    [|apply returns_ret].
  destruct (String.eqb middle "_eth"); [|apply returns_ret].
  cbn [negb]. destruct (first_label_exists _ L) as [addr E0]. rewrite E0.
  destruct (negb _); [apply returns_ret|].
  apply returns_bind; [apply returns_getResolver|]. intros resolver.
  apply returns_resolveDnsWithResolver.
Qed.

End Reliable.



(** ** What the engine keeps true of its store *)

Lemma unlink_length_lt {V} key (l : list (string * V)) v :
  LRU.lookup key l = Some v ->
  List.length (LRU.unlink key l) < List.length l.
Proof.
  induction l as [|[k x] l IH]; simpl; [discriminate|].
  destruct (String.eqb k key); simpl.
  - intros _. pose proof (filter_length_le
                            (fun kv => negb (String.eqb (fst kv) key)) l).
    unfold LRU.unlink. lia.
  - intros H. specialize (IH H). lia.
Qed.

Lemma get_healthy cap key (c : LRU.t Item) :
  (well_formed c /\ within_capacity c /\ no_zero_resolver c)
  /\ LRU.capacity c = cap ->
  (well_formed (snd (LRU.get key c))
   /\ within_capacity (snd (LRU.get key c))
   /\ no_zero_resolver (snd (LRU.get key c)))
  /\ LRU.capacity (snd (LRU.get key c)) = cap.
Proof.
  intros [(WF & WC & NZ) C]. split; [split; [|split]|].
  - now apply get_NoDup.
  - unfold within_capacity, LRU.get in *.
    destruct (LRU.lookup key (LRU.items c)) eqn:E; [|assumption].
    simpl. rewrite length_app. simpl.
    pose proof (unlink_length_lt key _ _ E). lia.
  - intros k t r I. apply get_In in I. now apply (NZ k t r).
  - unfold LRU.get. now destruct (LRU.lookup key (LRU.items c)).
Qed.

Lemma set_healthy cap key item (c : LRU.t Item) :
  (forall r, item_resolver item = Some r ->
             address r <> Ethereum.ZERO_ADDRESS) ->
  (well_formed c /\ within_capacity c /\ no_zero_resolver c)
  /\ LRU.capacity c = cap ->
  (well_formed (LRU.set key item c)
   /\ within_capacity (LRU.set key item c)
   /\ no_zero_resolver (LRU.set key item c))
  /\ LRU.capacity (LRU.set key item c) = cap.
Proof.
  intros Hi [(WF & WC & NZ) C]. split; [split; [|split]|].
  - now apply set_NoDup.
  - unfold within_capacity, LRU.set in *.
    destruct (Nat.eqb (LRU.capacity c) 0); [assumption|].
    destruct (LRU.lookup key (LRU.items c)); unfold LRU.compact; simpl;
      rewrite length_skipn; lia.
  - intros k t r I. apply set_In in I as [I | E].
    + now apply (NZ k t r).
    + apply Hi. apply (f_equal snd) in E. cbn [snd] in E. now subst item.
  - unfold LRU.set. destruct (Nat.eqb (LRU.capacity c) 0); [assumption|].
    now destruct (LRU.lookup key (LRU.items c)).
Qed.

Lemma preserves_ret {A} (I : State -> Prop) (Q : A -> Prop) (a : A) :
  Q a -> preserves I (ret a) Q.
Proof.
  intros H s Hs. split; [assumption|]. intros b [= <-]. assumption.
Qed.

Lemma preserves_bind {A B} (I : State -> Prop) (Q : A -> Prop)
  (R : B -> Prop) (m : M A) (k : A -> M B) :
  preserves I m Q -> (forall a, Q a -> preserves I (k a) R) ->
  preserves I (bind m k) R.
Proof.
  intros Hm Hk s Hs. unfold bind. destruct (Hm s Hs) as [I1 Q1].
  destruct (m s) as [[a | e] s1]; simpl in *.
  - apply (Hk a (Q1 a eq_refl) s1 I1).
  - split; [assumption | discriminate].
Qed.

Lemma preserves_any {A} (I : State -> Prop) (Q : A -> Prop) (m : M A) :
  preserves I m Q -> preserves I m (fun _ => True).
Proof.
  intros H s Hs. split; [apply (H s Hs) | auto].
Qed.

Section Healthy.
Variables (w : World) (cap : nat).

Lemma preserves_getRecord name type addr :
  preserves (healthy_at cap) (EthereumCache.getRecord w name type addr)
    (fun _ => True).
Proof.
  intros s Hs. split; [|auto]. rewrite getRecord_run. simpl.
  destruct (LRU.lookup _ (LRU.items (cache s))); [|assumption].
  simpl. now apply get_healthy.
Qed.

Lemma preserves_setRecord name type addr record :
  preserves (healthy_at cap) (EthereumCache.setRecord w name type addr record)
    (fun _ => True).
Proof.
  intros s Hs. split; [|auto]. rewrite setRecord_run. simpl.
  apply set_healthy; [discriminate | assumption].
Qed.

Lemma preserves_cache_getResolver node registry :
  preserves (healthy_at cap) (EthereumCache.getResolver w node registry)
    bound_resolver.
Proof.
  intros s Hs. rewrite getResolver_run. simpl.
  destruct (LRU.lookup _ (LRU.items (cache s))) as [item|] eqn:E.
  - simpl. split; [now apply get_healthy|].
    intros o [= <-] r Hr.
    destruct (_ >? _)%Z; [discriminate|].
    destruct item as [t x | t r']; [discriminate|].
    injection Hr as ->. apply lookup_In in E.
    destruct Hs as [(_ & _ & NZ) _]. now apply (NZ _ _ _ E).
  - split; [assumption|]. intros o [= <-] r Hr. discriminate.
Qed.

Lemma preserves_setResolver node registry resolver :
  bound_resolver resolver ->
  preserves (healthy_at cap)
    (EthereumCache.setResolver w node registry resolver) (fun _ => True).
Proof.
  intros Hb s Hs. split; [|auto]. destruct resolver as [r|]; [|assumption].
  rewrite setResolver_run. simpl. apply set_healthy; [|assumption].
  intros r' [= <-]. now apply Hb.
Qed.

Lemma preserves_call_dnsRecord r node name type :
  preserves (healthy_at cap) (call_dnsRecord w r node name type)
    (fun _ => True).
Proof. intros s Hs. split; [assumption | auto]. Qed.

Lemma preserves_getResolverFromRegistry name registry :
  preserves (healthy_at cap) (Ethereum.getResolverFromRegistry w name registry)
    bound_resolver.
Proof.
  unfold Ethereum.getResolverFromRegistry.
  apply preserves_bind with (Q := fun _ => True).
  - intros s Hs. split; [assumption | auto].
  - intros addr _. destruct (String.eqb_spec addr Ethereum.ZERO_ADDRESS).
    + apply preserves_ret. intros r. discriminate.
    + apply preserves_ret. intros r [= <-]. assumption.
Qed.

Lemma preserves_getResolver node registry :
  preserves (healthy_at cap) (Ethereum.getResolver w node registry)
    bound_resolver.
Proof.
  unfold Ethereum.getResolver.
  apply preserves_bind with (Q := bound_resolver);
    [apply preserves_cache_getResolver|].
  intros [r|] Hb; [now apply preserves_ret|].
  apply preserves_bind with (Q := bound_resolver);
    [apply preserves_getResolverFromRegistry|].
  intros resolver Hr.
  apply preserves_bind with (Q := fun _ => True);
    [now apply preserves_setResolver|].
  intros _ _. now apply preserves_ret.
Qed.

Lemma preserves_getRRSet name type node resolver :
  preserves (healthy_at cap) (Ethereum.getRRSet w name type node resolver)
    (fun _ => True).
Proof.
  unfold Ethereum.getRRSet.
  destruct resolver as [r|]; [|now apply preserves_ret].
  apply preserves_bind with (Q := fun _ => True);
    [apply preserves_getRecord|]. intros cached _.
  apply preserves_bind with (Q := fun _ => True).
  - destruct (JS.falsy cached); [|now apply preserves_ret].
    apply preserves_bind with (Q := fun _ => True);
      [apply preserves_call_dnsRecord|]. intros fetched _.
    apply preserves_bind with (Q := fun _ => True);
      [apply preserves_setRecord|]. intros _ _. now apply preserves_ret.
  - intros [record|] _; [|now apply preserves_ret].
    destruct (_ || _); now apply preserves_ret.
Qed.

Lemma preserves_resolveDnsWithResolver name type node resolver :
  preserves (healthy_at cap)
    (Ethereum.resolveDnsWithResolver w name type node resolver)
    (fun _ => True).
Proof.
  unfold Ethereum.resolveDnsWithResolver.
  apply preserves_bind with (Q := fun _ => True);
    [apply preserves_getRRSet|]. intros [exact|] _.
  - destruct (N.eqb type wire.types.NS); [|now apply preserves_ret].
    apply preserves_bind with (Q := fun _ => True);
      [apply preserves_getRRSet|].
    intros [ds|] _; now apply preserves_ret.
  - apply preserves_bind with (Q := fun _ => True);
      [apply preserves_getRRSet|]. intros [ns|] _.
    + apply preserves_bind with (Q := fun _ => True);
        [apply preserves_getRRSet|].
      intros [ds|] _; now apply preserves_ret.
    + apply preserves_getRRSet.
Qed.

Lemma preserves_resolveDnsFromRegistry name type registry node :
  preserves (healthy_at cap)
    (Ethereum.resolveDnsFromRegistry w name type registry node)
    (fun _ => True).
Proof.
  unfold Ethereum.resolveDnsFromRegistry.
  apply preserves_bind with (Q := bound_resolver);
    [apply preserves_getResolver|].
  intros resolver _. apply preserves_resolveDnsWithResolver.
Qed.

Lemma preserves_resolveDnsFromAbstractEns name type ns node :
  preserves (healthy_at cap)
    (Ethereum.resolveDnsFromAbstractEns w name type ns node)
    (fun _ => True).
Proof.
  unfold Ethereum.resolveDnsFromAbstractEns.
  destruct (Nat.eqb_spec (List.length (JS.split "." ns)) 3) as [L|L];
    [|now apply preserves_ret].
  cbn [negb]. destruct (JS.index (JS.split "." ns) 1) as [middle|];
    [|now apply preserves_ret].
  destruct (String.eqb middle "_eth"); [|now apply preserves_ret].
  cbn [negb]. destruct (first_label_exists _ L) as [addr E0]. rewrite E0.
  destruct (negb _); [now apply preserves_ret|].
  apply preserves_bind with (Q := bound_resolver);
    [apply preserves_getResolver|].
  intros resolver _. apply preserves_resolveDnsWithResolver.
Qed.

End Healthy.

Lemma initial_healthy n : healthy_at 3000 (Ethereum.initial n).
Proof.
  split; [|reflexivity]. split; [constructor|]. split.
  - unfold within_capacity. simpl. lia.
  - intros k t r [].
Qed.



(** X18: the all-zero address is never taken for a resolver: on a healthy
    store [getResolver] never returns a resolver bound to it, and a
    resolution through a registry never sends it a [dnsRecord] call. *)
Theorem zero_address_is_never_asked (w : World) (cap : nat) (s : State)
  (name : string) (type : N) (registry : string) (node : option string) :
  healthy_at cap s ->
  (forall n r,
     fst (Ethereum.getResolver w n registry s) = Returned (Some r) ->
     address r <> Ethereum.ZERO_ADDRESS)
  /\ (exists l,
        calls (snd (Ethereum.resolveDnsFromRegistry w name type registry
                      node s)) = (l ++ calls s)%list
        /\ Forall not_to_zero_address l).
Proof.
  intros Hs. split.
  - intros n r H.
    now apply (proj2 (preserves_getResolver w cap n registry s Hs) _ H).
  - unfold Ethereum.resolveDnsFromRegistry, bind.
    set (n := util.trimFQDN (Ethereum.node_or_default name node)).
    destruct (issues_getResolver w n registry s) as (l1 & E1 & _ & F1).
    destruct (preserves_getResolver w cap n registry s Hs) as [_ B].
    assert (F1' : Forall not_to_zero_address l1).
    { eapply Forall_impl; [|exact F1]. intros c -> nd nm ty. discriminate. }
    destruct (Ethereum.getResolver w n registry s) as [[[r|] | e] s1];
      cbn [fst snd] in *.
    + destruct (issues_resolveDnsWithResolver w name type
                  (Ethereum.node_or_default name node) r s1)
        as (l2 & E2 & _ & F2).
      exists (l2 ++ l1)%list. split.
      * rewrite E2, E1. now rewrite app_assoc.
      * apply Forall_app. split; [|assumption].
        eapply Forall_impl; [|exact F2].
        intros c (nm & ty & ->) nd nm' ty' [= Z _ _ _].
        now apply (B (Some r) eq_refl r eq_refl).
    + exists l1. now split.
    + exists l1. now split.
Qed.

Lemma zero_address_is_never_asked_witness :
  address (mkResolver Example.resolver_a) <> Ethereum.ZERO_ADDRESS.
Proof.
  destruct (zero_address_is_never_asked Example.world 3000 Example.start
              "www.example.eth." Example.A Ethereum.ENS_ADDRESS None)
    as [H _].
  - apply (initial_healthy 0).
  - apply (H "example.eth"). reflexivity.
Defined.

(** ** The cache does not change the answers *)

(** X19: with a resolver whose answers do not change, the cache is
    transparent: on any two stores that hold nothing but records the
    resolver answers (an empty store among them), a fetch returns the same
    RRset and a resolution the same answer, and leaves such a store. *)
Theorem cache_is_transparent (w : World) (r : Resolver) (node : string)
  (text : string -> N -> option string) (name : string) (type : N)
  (s s' : State) :
  steady w r node text ->
  no_separator (address r) = true ->
  coherent text (address r) (cache s) ->
  coherent text (address r) (cache s') ->
  fst (Ethereum.getRRSet w name type node (Some r) s)
    = fst (Ethereum.getRRSet w name type node (Some r) s')
  /\ fst (Ethereum.resolveDnsWithResolver w name type node (Some r) s)
     = fst (Ethereum.resolveDnsWithResolver w name type node (Some r) s')
  /\ coherent text (address r)
       (cache (snd (Ethereum.resolveDnsWithResolver w name type node
                      (Some r) s))).
Proof.
  intros St Ad C C'.
  destruct (getRRSet_coherent w r node text St Ad name type s C) as [E _].
  destruct (getRRSet_coherent w r node text St Ad name type s' C') as [E' _].
  destruct (resolve_refines_chain w r node text St Ad name type s C)
    as [R Co].
  destruct (resolve_refines_chain w r node text St Ad name type s' C')
    as [R' _].
  split; [now rewrite E, E'|]. split; [now rewrite R, R' | exact Co].
Qed.

Lemma cache_is_transparent_witness :
  fst (Ethereum.resolveDnsWithResolver Example.world "mail.example.eth."
         Example.A "example.eth" (Some (mkResolver Example.resolver_a))
         (snd (Ethereum.resolveDnsWithResolver Example.world
                 "www.example.eth." Example.A "example.eth"
                 (Some (mkResolver Example.resolver_a)) Example.start)))
  = fst (Ethereum.resolveDnsWithResolver Example.world "mail.example.eth."
           Example.A "example.eth" (Some (mkResolver Example.resolver_a))
           Example.start).
Proof.
  assert (St : steady Example.world (mkResolver Example.resolver_a)
                 "example.eth"
                 (fun name type =>
                    Some (Example.zone Example.resolver_a
                            (Ethereum.hashDnsName Example.world name) type)))
    by (intros history name type; reflexivity).
  assert (C0 : coherent
                 (fun name type =>
                    Some (Example.zone Example.resolver_a
                            (Ethereum.hashDnsName Example.world name) type))
                 (address (mkResolver Example.resolver_a))
                 (cache Example.start))
    by (intros name type time record I; destruct I).
  apply (cache_is_transparent Example.world (mkResolver Example.resolver_a)
           "example.eth" _ "mail.example.eth." Example.A _ Example.start
           St eq_refl).
  - apply (resolve_refines_chain Example.world _ _ _ St eq_refl
             "www.example.eth." Example.A Example.start C0).
  - exact C0.
Defined.

(** ** Reads count as uses *)

Lemma get_then_set_keeps {V} (key key' : string) (item v : V)
  (c : LRU.t V) :
  List.length (LRU.items c) <= LRU.capacity c ->
  2 <= LRU.capacity c ->
  LRU.lookup key (LRU.items c) = Some item ->
  key' <> key ->
  LRU.lookup key (LRU.items (LRU.set key' v (snd (LRU.get key c))))
  = Some item.
Proof.
  intros WC C2 Hl N.
  pose proof (unlink_length_lt key _ _ Hl) as Lu.
  unfold LRU.get. rewrite Hl. cbn [snd].
  set (u := LRU.unlink key (LRU.items c)) in *.
  assert (Hu : LRU.lookup key u = None) by apply lookup_unlink_same.
  assert (K : forall n l, n <= 1 -> (n = 1 -> l <> []) ->
              LRU.lookup key l = None ->
              LRU.lookup key (skipn n (l ++ [(key, item)])%list) = Some item).
  { intros n l Ln Hn Hk. destruct n as [|[|n]]; [| |lia].
    - simpl. rewrite lookup_app, Hk. simpl. now rewrite String.eqb_refl.
    - destruct l as [|h t]; [now specialize (Hn eq_refl)|]. simpl.
      rewrite lookup_app.
      rewrite (lookup_skipn_None key 1 (h :: t) Hk : LRU.lookup key t = None).
      simpl. now rewrite String.eqb_refl. }
  assert (K' : forall l, LRU.lookup key (l ++ [(key', v)])%list
                         = LRU.lookup key l).
  { intros l. rewrite lookup_app. destruct (LRU.lookup key l); [reflexivity|].
    simpl. destruct (String.eqb_spec key' key); [contradiction | reflexivity]. }
  unfold LRU.set. cbn [LRU.capacity LRU.items].
  destruct (Nat.eqb_spec (LRU.capacity c) 0) as [Z|_]; [lia|].
  destruct (LRU.lookup key' (u ++ [(key, item)])%list) eqn:E;
    unfold LRU.compact; cbn [LRU.capacity LRU.items].
  - pose proof (unlink_length_lt key' _ _ E) as Lf.
    rewrite length_app in *. cbn [List.length] in *.
    replace (_ - LRU.capacity c) with 0 by lia. cbn [skipn].
    rewrite K', lookup_unlink_other by congruence.
    rewrite lookup_app, Hu. simpl. now rewrite String.eqb_refl.
  - rewrite !length_app. cbn [List.length].
    rewrite <- app_assoc. cbn [app].
    destruct (Nat.le_gt_cases (List.length u + 1 + 1) (LRU.capacity c))
      as [Le|Gt].
    + replace (_ - LRU.capacity c) with 0 by lia. cbn [skipn].
      rewrite lookup_app, Hu. simpl. now rewrite String.eqb_refl.
    + replace (_ - LRU.capacity c) with 1 by lia.
      destruct u as [|h t]; [simpl in *; lia|]. cbn [skipn app].
      rewrite lookup_app.
      rewrite (lookup_skipn_None key 1 (h :: t) Hu : LRU.lookup key t = None).
      simpl. now rewrite String.eqb_refl.
Qed.

(** X20: a read counts as a use even when the entry is stale: after a
    [getRecord] of a stored record, the next write of another record or
    of a resolver leaves that record in the store, stale or not, even
    when the store is full (the store holding two entries at least). *)
Theorem read_entry_survives_next_write (w : World) (name : string) (type : N)
  (addr : string) (item : Item) (s : State) :
  within_capacity (cache s) ->
  2 <= LRU.capacity (cache s) ->
  let key := EthereumCache.toDnsKey name type addr in
  let s1 := snd (EthereumCache.getRecord w name type addr s) in
  LRU.lookup key (LRU.items (cache s)) = Some item ->
  (forall name' type' addr' record,
     EthereumCache.toDnsKey name' type' addr' <> key ->
     LRU.lookup key
       (LRU.items
          (cache (snd (EthereumCache.setRecord w name' type' addr' record s1))))
     = Some item)
  /\ (forall node registry resolver,
        LRU.lookup key
          (LRU.items
             (cache (snd (EthereumCache.setResolver w node registry resolver
                            s1))))
        = Some item).
Proof.
  intros WC C2 key s1 Hl.
  assert (E1 : cache s1 = snd (LRU.get key (cache s))).
  { subst s1. rewrite getRecord_run. cbn zeta. fold key. now rewrite Hl. }
  split.
  - intros name' type' addr' record N. rewrite setRecord_run.
    cbn [snd cache]. rewrite E1. now apply get_then_set_keeps.
  - intros node registry [r|].
    + rewrite setResolver_run. cbn [snd cache]. rewrite E1.
      apply get_then_set_keeps; try assumption.
      intros E. now apply (tags_differ name type addr node registry).
    + cbn [EthereumCache.setResolver ret snd]. rewrite E1.
      now rewrite get_lookup.
Qed.

Lemma read_entry_survives_next_write_witness :
  LRU.lookup (EthereumCache.toDnsKey "a." Example.A Example.resolver_a)
    (LRU.items
       (cache
          (snd (EthereumCache.setRecord Example.world "c." Example.A
                  Example.resolver_a (Some "0x03")
                  (snd (EthereumCache.getRecord Example.world "a." Example.A
                          Example.resolver_a full_store_of_two))))))
  = Some (RecordItem 0 "0x01").
Proof.
  apply (proj1 (read_entry_survives_next_write Example.world "a." Example.A
                  Example.resolver_a (RecordItem 0 "0x01") full_store_of_two
                  ltac:(unfold within_capacity; simpl; lia)
                  ltac:(simpl; lia) eq_refl)).
  vm_compute. discriminate.
Defined.
